(** * treetsage: a Maps gateway for an LLM (Bun / Hono)

    Shallow embedding of the request-handling code of the repository:

    - [server.js], the Hono gateway: start-up configuration checks, the
      in-memory sliding-window rate limiter, the middleware chain of the
      protected routes, the upstream helpers ([callGoogleMapsAPI],
      [geocodeLocation], [searchPlaces], [getDirections]) and the three
      POST handlers;
    - the second copy of [server.js] kept in the repository (its header
      does not read "Fixed"; it is taken to be the earlier revision), for
      its start-up checks and its [/llm-function] handler: its rate
      limiter, its middleware registration and its normalisation of the
      places are, statement for statement, those of [server.js];
    - [index.js], the plain [Bun.serve] variant, for its [geocode] helper
      and its start-up check.

    JSON values are embedded with the types the Google Maps web services
    give them: a field that may be absent is an [option] (a [Nullable]
    where the code tells [null] from [undefined]), a string is a [string].
    The coordinates, which the code adds and divides, and the numbers it
    prints (the radius, the HTTP code of a reply) are the binary64 numbers
    of JS ([float], with the IEEE 754 operations of the kernel); a rating
    or a price level, which the code only tests for truthiness and passes
    on, is a rational [Q]; timestamps and lengths are integers.
    Outbound HTTP is an explicit effect: code that awaits [fetch] is a
    tree of [Fetch] nodes, so that "performs no network call" is a
    property of the tree. *)

From Stdlib Require Import ZArith QArith List Ascii String Lia Bool Sorted.
From Corelib Require Import PrimFloat.
From stdpp Require Import base option strings list gmap.

Local Open Scope string_scope.
Local Open Scope list_scope.
Local Open Scope Z_scope.

(** ** JavaScript truthiness on the types in use *)

(** [s || d] for an optional string: [undefined], [null] and the empty
    string are falsy. *)
Definition truthyStr (s : option string) : bool :=
  match s with
  | Some (String _ _) => true
  | _ => false
  end.

Definition strOr (s : option string) (d : string) : string :=
  match s with
  | Some (String a r) => String a r
  | _ => d
  end.

(** [n || null] for an optional number: [undefined], [null] and [0] are
    falsy (JSON has no NaN). *)
Definition numOrNull (n : option Q) : option Q :=
  match n with
  | Some q => if Qeq_bool q 0 then None else Some q
  | None => None
  end.

(** A JSON field for which the code tells an absent field ([undefined],
    to which a destructuring default applies) from [null] (to which it
    does not). *)
Inductive Nullable (A : Type) :=
| Undefined
| Null
| Value (a : A).

Arguments Undefined {A}.
Arguments Null {A}.
Arguments Value {A} a.

(** A destructuring or parameter default [x = d]. *)
Definition withDefault {A} (d : A) (x : Nullable A) : Nullable A :=
  match x with
  | Undefined => Value d
  | _ => x
  end.

(** The value, with [None] for [null] and [undefined]. *)
Definition nullish {A} (x : Nullable A) : option A :=
  match x with
  | Value a => Some a
  | _ => None
  end.

(** An integer as a JS number; exact below [2 ^ 53]. *)
Fixpoint pos2float (p : positive) : float :=
  match p with
  | xH => 1
  | xO q => 2 * pos2float q
  | xI q => 2 * pos2float q + 1
  end%float.

Definition Z2float (z : Z) : float :=
  match z with
  | Z0 => 0
  | Zpos p => pos2float p
  | Zneg p => - pos2float p
  end%float.

(** The double quote, written by code: 34 is its ASCII number. *)
Definition dq : string := String (ascii_of_nat 34) EmptyString.

(** ** Data model *)

Record LatLng := { lat : float; lng : float }.

Record Geometry := { location : option LatLng }.

(** A raw record of the provider's [results] array. *)
Record RawPlace := {
  raw_name : option string;
  raw_vicinity : option string;
  raw_formatted_address : option string;
  raw_rating : option Q;
  raw_price_level : option Q;
  raw_place_id : option string;
  raw_geometry : option Geometry;
  raw_types : option (list string)
}.

(** The object built for each entry of [processedPlaces]. *)
Record PlaceRecord := {
  name : string;
  address : string;
  rating : option Q;          (* [None] is JSON [null] *)
  price_level : option Q;     (* [None] is JSON [null] *)
  place_id : string;
  place_location : LatLng;
  types : list string
}.

Record TextValue := { text : string }.

Record Leg := {
  duration : TextValue;
  distance : TextValue;
  start_address : string;
  end_address : string
}.

Record Route := { legs : list Leg }.

(** The JSON envelope of a provider reply. *)
Record ApiData := {
  api_status : string;
  error_message : option string;
  results : option (list RawPlace);
  routes : option (list Route)
}.

(** What an awaited [fetch] followed by [response.json()] can give. *)
Inductive Fetched :=
| NetworkFailure (message : string)
| HttpReply (ok : bool) (http_status : Z) (statusText : string)
            (json : string + ApiData).   (* [inl m]: [json()] rejects with message [m] *)

(** An outbound request: endpoint under [maps/api/] and the query
    parameters in the order they are set. *)
Record Outbound := {
  endpoint : string;
  params : list (string * string)
}.

(** The bodies the gateway sends. *)
Record SearchResult := {
  places : list PlaceRecord;
  center_lat : option float;  (* [None] is what a division by length 0 gives *)
  center_lng : option float;
  total_results : nat
}.

Record DirectionsResult := {
  directions : Route;
  dir_url : string;
  dir_duration : string;
  dir_distance : string;
  dir_start_address : string;
  dir_end_address : string;
  dir_mode : option string    (* [None] is JSON [null] *)
}.

Inductive ResponseBody :=
| ErrorJson (error : string) (message : option string)
| UnauthorizedBody
| SearchJson (r : SearchResult)
| DirectionsJson (r : DirectionsResult).

Record Response := { status : Z; body : ResponseBody }.

(** [c.json(obj, code)] *)
Definition json (b : ResponseBody) (code : Z) : Response :=
  {| status := code; body := b |}.

Abbreviation Headers := (gmap string string).

(** ** server.js: the rate limiter *)

(** [rateLimitStore = new Map()]: client identifier to the list of request
    times, in milliseconds. *)
Abbreviation RateLimitStore := (gmap string (list Z)).

Definition windowMs : Z := 60 * 60 * 1000.
Definition maxRequests : nat := 100.

Definition clientIP (headers : Headers) : string :=
  strOr (headers !! "x-forwarded-for") "unknown".

Definition rateLimitExceeded : Response :=
  json (ErrorJson "Rate limit exceeded" (Some "Max 100 requests per hour")) 429.

(** [customRateLimiter]: the new store and [Some r] when the middleware
    answers [r] itself, [None] when it awaits [next()]. *)
Definition customRateLimiter (store : RateLimitStore) (headers : Headers)
    (now : Z) : RateLimitStore * option Response :=
  let clientRequests := default [] (store !! clientIP headers) in
  let validRequests :=
    List.filter (fun time => now - time <? windowMs) clientRequests in
  if (maxRequests <=? length validRequests)%nat
  then (store, Some rateLimitExceeded)
  else (<[clientIP headers := validRequests ++ [now]]> store, None).

(** The limiter seen as the capability [allow(clientId) -> bool]. *)
Definition allow (store : RateLimitStore) (headers : Headers) (now : Z) : bool :=
  match (customRateLimiter store headers now).2 with
  | None => true
  | Some _ => false
  end.

(** The list the store holds for a client, [[]] when it has none. *)
Definition ledger (store : RateLimitStore) (c : string) : list Z :=
  default [] (store !! c).

(** The store after a history of checks, oldest first. *)
Fixpoint checks (store : RateLimitStore) (history : list (Headers * Z))
    : RateLimitStore :=
  match history with
  | [] => store
  | (headers, now) :: rest =>
      checks (customRateLimiter store headers now).1 rest
  end.

(** The times at which client [c] was checked in a history. *)
Definition timesOf (c : string) (history : list (Headers * Z)) : list Z :=
  (List.filter (fun e => String.eqb (clientIP e.1) c) history).*2.

(** All the checks of a list fall in one window: seen from any of them,
    every earlier one is less than [windowMs] old. *)
Definition sameWindow (ts : list Z) : Prop :=
  ∀ (i j : nat) (ti tj : Z),
    (i < j)%nat → ts !! i = Some ti → ts !! j = Some tj → tj - ti < windowMs.

(** Every time of [old] is out of the window of every time of [ts]. *)
Definition stale (old ts : list Z) : Prop :=
  ∀ t t' : Z, t ∈ old → t' ∈ ts → windowMs ≤ t' - t.

(** The clock never goes back along a list of times. *)
Definition monotone (ts : list Z) : Prop :=
  ∀ (i j : nat) (ti tj : Z),
    (i ≤ j)%nat → ts !! i = Some ti → ts !! j = Some tj → ti ≤ tj.

(** ** Awaited code as a tree of outbound calls *)

(** A computation that returns, throws an [Error] (of which only the
    message is ever read), or awaits a [fetch] and goes on with what came
    back. *)
Inductive Prog (A : Type) : Type :=
| Ret (a : A)
| Throw (message : string)
| Fetch (request : Outbound) (k : Fetched → Prog A).

Arguments Ret {A} a.
Arguments Throw {A} message.
Arguments Fetch {A} request k.

Fixpoint bind {A B} (m : Prog A) (f : A → Prog B) : Prog B :=
  match m with
  | Ret a => f a
  | Throw e => Throw e
  | Fetch r k => Fetch r (fun reply => bind (k reply) f)
  end.

(** [try { m } catch (error) { h error.message }] *)
Fixpoint tryCatch {A} (m : Prog A) (h : string → Prog A) : Prog A :=
  match m with
  | Ret a => Ret a
  | Throw e => h e
  | Fetch r k => Fetch r (fun reply => tryCatch (k reply) h)
  end.

Notation "'let*' x := m 'in' k" := (bind m (fun x => k))
  (at level 10, x name, m at level 100, k at level 200).

(** Running a computation against a provider: the calls made, oldest
    first, and the outcome ([inl] is an uncaught error message). *)
Fixpoint run {A} (upstream : Outbound → Fetched) (m : Prog A)
    : list Outbound * (string + A) :=
  match m with
  | Ret a => ([], inr a)
  | Throw e => ([], inl e)
  | Fetch r k =>
      let '(calls, out) := run upstream (k (upstream r)) in (r :: calls, out)
  end.

(** ** Regular expressions, for the pattern of [geocode] *)

Inductive Regex :=
| Empty                      (* matches nothing *)
| Eps                        (* the empty string *)
| Chr (c : ascii)
| Digit                      (* [\d] *)
| Alt (r s : Regex)
| Seq (r s : Regex)
| Star (r : Regex).

Definition Opt (r : Regex) : Regex := Alt r Eps.       (* [r?] *)
Definition Plus (r : Regex) : Regex := Seq r (Star r). (* [r+] *)

Definition isDigit (c : ascii) : bool :=
  (48 <=? nat_of_ascii c)%nat && (nat_of_ascii c <=? 57)%nat.

Fixpoint nullable (r : Regex) : bool :=
  match r with
  | Empty | Chr _ | Digit => false
  | Eps | Star _ => true
  | Alt r s => nullable r || nullable s
  | Seq r s => nullable r && nullable s
  end.

Fixpoint deriv (c : ascii) (r : Regex) : Regex :=
  match r with
  | Empty | Eps => Empty
  | Chr d => if Ascii.eqb c d then Eps else Empty
  | Digit => if isDigit c then Eps else Empty
  | Alt r s => Alt (deriv c r) (deriv c s)
  | Seq r s =>
      if nullable r then Alt (Seq (deriv c r) s) (deriv c s)
      else Seq (deriv c r) s
  | Star r => Seq (deriv c r) (Star r)
  end.

(** [/^r$/.test(s)] *)
Fixpoint test (r : Regex) (s : string) : bool :=
  match s with
  | EmptyString => nullable r
  | String c rest => test (deriv c r) rest
  end.

(** The strings a regular expression matches as a whole, to state what
    [test] decides. *)
Inductive Matches : Regex → string → Prop :=
| MatchEps : Matches Eps ""
| MatchChr c : Matches (Chr c) (String c "")
| MatchDigit c : isDigit c = true → Matches Digit (String c "")
| MatchAltL r s w : Matches r w → Matches (Alt r s) w
| MatchAltR r s w : Matches s w → Matches (Alt r s) w
| MatchSeq r s u v : Matches r u → Matches s v → Matches (Seq r s) (u +:+ v)
| MatchStarNil r : Matches (Star r) ""
| MatchStarCons r u v :
    Matches r u → Matches (Star r) v → Matches (Star r) (u +:+ v).

(** [-?\d+\.?\d*] *)
Definition number : Regex :=
  Seq (Opt (Chr "-")) (Seq (Plus Digit) (Seq (Opt (Chr ".")) (Star Digit))).

(** [/^-?\d+\.?\d*,-?\d+\.?\d*$/] *)
Definition latLngPattern : Regex := Seq number (Seq (Chr ",") number).

(** ** Start-up *)

Record Env := {
  GOOGLE_MAPS_API_KEY : option string;
  API_SECRET : option string;
  PORT : option string
}.

Record Config := {
  googleMapsApiKey : option string;
  apiSecret : option string;
  port : string
}.

Inductive Startup :=
| Exit (code : Z)                (* [process.exit(code)] *)
| Uncaught (message : string)    (* an error thrown at top level *)
| Serving (config : Config).

Definition configOf (env : Env) : Config :=
  {| googleMapsApiKey := GOOGLE_MAPS_API_KEY env;
     apiSecret := API_SECRET env;
     port := strOr (PORT env) "3000" |}.

(** server.js, lines 9-23. *)
Definition serverStartup (env : Env) : Startup :=
  let config := configOf env in
  if negb (truthyStr (googleMapsApiKey config)) then Exit 1
  else if negb (truthyStr (apiSecret config)) then Exit 1
  else Serving config.

(** The second copy of server.js, lines 9-18: the only check is the one
    of the API key. *)
Definition previousServerStartup (env : Env) : Startup :=
  let config := configOf env in
  if negb (truthyStr (googleMapsApiKey config)) then Exit 1
  else Serving config.

(** index.js, lines 3-4: one secret, no bearer token at all. *)
Definition indexStartup (env : Env) : Startup :=
  if negb (truthyStr (GOOGLE_MAPS_API_KEY env))
  then Uncaught "Missing GOOGLE_MAPS_API_KEY"
  else Serving {| googleMapsApiKey := GOOGLE_MAPS_API_KEY env;
                  apiSecret := None; port := "3000" |}.

(** ** Requests *)

(** The fields the handlers read from a JSON body.  Those that have a
    destructuring default ([radius], [mode]) tell [null] from
    [undefined]; the others are tested for truthiness before any use,
    where the two are the same. *)
Record Parameters := {
  query : option string;
  q_location : option string;
  radius : Nullable float;
  type : option string;
  origin : option string;
  destination : option string;
  mode : Nullable string
}.

Record JsonObject := {
  fields : Parameters;
  function_name : option string;
  parameters : Nullable Parameters
}.

(** What [await c.req.json()] gives: a rejection, the value [null], or
    the parsed object. *)
Inductive Body :=
| BadBody (message : string)
| NullBody
| JsonBody (o : JsonObject).

(** [{}] *)
Definition noParameters : Parameters :=
  {| query := None; q_location := None; radius := Undefined; type := None;
     origin := None; destination := None; mode := Undefined |}.

(** The object read back from [JSON.stringify(parameters)]. *)
Definition objectOf (p : Parameters) : JsonObject :=
  {| fields := p; function_name := None; parameters := Undefined |}.

(** What [json()] reads back from [JSON.stringify(parameters)]. *)
Definition bodyOf (parameters : option Parameters) : Body :=
  match parameters with
  | Some p => JsonBody (objectOf p)
  | None => NullBody
  end.

(** The routes behind [bearerAuth] and [customRateLimiter]. *)
Inductive Endpoint := SearchPlaces | Directions.

Definition endpointPath (e : Endpoint) : string :=
  match e with
  | SearchPlaces => "/search-places"
  | Directions => "/directions"
  end.

Inductive Path :=
| Protected (e : Endpoint)
| LlmFunction.                (* [/llm-function] *)

Record Request := {
  path : Path;
  headers : Headers;
  req_body : Body
}.

(** ** Normalisation of the search results *)

Definition processPlace (place : RawPlace) : PlaceRecord :=
  {| name := strOr (raw_name place) "";
     address :=
       strOr (raw_vicinity place) (strOr (raw_formatted_address place) "");
     rating := numOrNull (raw_rating place);
     price_level := numOrNull (raw_price_level place);
     place_id := strOr (raw_place_id place) "";
     place_location :=
       default {| lat := 0; lng := 0 |} (raw_geometry place ≫= location);
     types := default [] (raw_types place) |}.

(** [places.slice(0, 10).map(...)] *)
Definition processedPlaces (places : list RawPlace) : list PlaceRecord :=
  map processPlace (take 10 places).

(** [total / n] with [n] a length, in binary64.  [None] stands for the
    division by the length 0. *)
Definition jsDiv (total : float) (n : nat) : option float :=
  match n with
  | O => None
  | S _ => Some (total / Z2float (Z.of_nat n))%float
  end.

(** [ps.reduce((sum, place) => sum + place.location.f, 0)]: the binary64
    additions, from 0 and in the order of the list. *)
Definition total (f : LatLng → float) (ps : list PlaceRecord) : float :=
  fold_left (fun sum place => (sum + f (place_location place))%float) ps 0%float.

Definition searchResponse (places : list RawPlace) : Response :=
  let processed := processedPlaces places in
  let totalLat := total lat processed in
  let totalLng := total lng processed in
  let centerLat := jsDiv totalLat (length processed) in
  let centerLng := jsDiv totalLng (length processed) in
  json (SearchJson {| places := processed;
                      center_lat := centerLat;
                      center_lng := centerLng;
                      total_results := length places |}) 200.

(** ** The gateway *)

Section Gateway.

(** [String(n)] on a JS number, as template literals apply it. *)
Variable Number_toString : float → string.

(** The message of the [TypeError] the engine throws when a property of
    [undefined] or of [null] is read, or called without being a
    function. *)
Variable typeErrorMessage : string.

(** The [config] object the server runs with. *)
Variable config : Config.

(** The built-in [encodeURIComponent]: [inl m] when it throws a
    [URIError] of message [m] (the string has a lone surrogate), [inr u]
    when it returns [u]. *)
Variable encodeURIComponent : string → string + string.

(** *** index.js *)

(** [API_KEY], checked at start-up. *)
Variable API_KEY : string.

(** [geocode] of index.js (lines 24-39). *)
Definition geocode (locationText : string) : Prog string :=
  if negb (truthyStr (Some locationText)) || test latLngPattern locationText
  then Ret locationText
  else
    Fetch {| endpoint := "geocode/json";
             params := [("address", locationText); ("key", API_KEY)] |}
      (fun reply =>
         match reply with
         | NetworkFailure m => Throw m
         | HttpReply _ _ _ (inl m) => Throw m
         | HttpReply _ _ _ (inr data) =>
             match String.eqb (api_status data) "OK", results data with
             | true, Some (first :: _) =>
                 match raw_geometry first ≫= location with
                 | Some l =>
                     Ret (Number_toString (lat l) +:+ "," +:+
                          Number_toString (lng l))
                 | None => Throw typeErrorMessage
                 end
             | _, _ =>
                 Throw ("Geocoding failed for " +:+ dq +:+ locationText +:+ dq)
             end
         end).

(** *** server.js: upstream helpers *)

(** [callGoogleMapsAPI(endpoint, params)]: a parameter whose value is
    [null] or [undefined] is left out, the others are set after [key]. *)
Definition callGoogleMapsAPI (endpoint : string)
    (params : list (string * option string)) : Prog ApiData :=
  Fetch {| endpoint := endpoint;
           params :=
             ("key", default "undefined" (googleMapsApiKey config))
             :: omap (fun kv => pair kv.1 <$> kv.2) params |}
    (fun reply =>
       match reply with
       | NetworkFailure m => Throw m
       | HttpReply ok code statusText body =>
           if negb ok
           then Throw ("Google Maps API error: " +:+
                       Number_toString (Z2float code) +:+ " " +:+ statusText)
           else
             match body with
             | inl m => Throw m
             | inr data =>
                 if negb (String.eqb (api_status data) "OK") &&
                    negb (String.eqb (api_status data) "ZERO_RESULTS")
                 then Throw ("Google Maps API status: " +:+ api_status data
                             +:+ " - " +:+
                             strOr (error_message data) "Unknown error")
                 else Ret data
             end
       end).

(** [geocodeLocation(address)] (lines 116-130): every failure becomes
    [null]. *)
Definition geocodeLocation (address : string) : Prog (option LatLng) :=
  tryCatch
    (let* data := callGoogleMapsAPI "geocode/json" [("address", Some address)] in
     match results data with
     | Some (first :: _) =>
         match raw_geometry first with
         | Some geometry => Ret (location geometry)
         | None => Throw typeErrorMessage
         end
     | _ => Ret None
     end)
    (fun _ => Ret None).

(** [searchPlaces(query, location = null, radius = 2000, placeType =
    null)]: a [radius] that is [null] stays [null], and
    [callGoogleMapsAPI] leaves it out. *)
Definition searchPlaces (query : string) (location : option string)
    (radius : Nullable float) (placeType : option string)
    : Prog (list RawPlace) :=
  let radius := withDefault 2000%float radius in
  let* locationBias :=
    if truthyStr location
    then geocodeLocation (default "" location)
    else Ret None in
  let* data :=
    match locationBias with
    | Some bias =>
        callGoogleMapsAPI "place/nearbysearch/json"
          ([("location",
             Some (Number_toString (lat bias) +:+ "," +:+
                   Number_toString (lng bias)));
            ("radius", Number_toString <$> nullish radius);
            ("keyword", Some query)]
           ++ (if truthyStr placeType then [("type", placeType)] else []))
    | None =>
        callGoogleMapsAPI "place/textsearch/json" [("query", Some query)]
    end in
  Ret (default [] (results data)).

(** [getDirections(origin, destination, mode = "driving")]: a [mode]
    that is [null] stays [null], and [callGoogleMapsAPI] leaves it out. *)
Definition getDirections (origin destination : string)
    (mode : Nullable string) : Prog (list Route) :=
  let mode := withDefault "driving" mode in
  let* data :=
    callGoogleMapsAPI "directions/json"
      [("origin", Some origin); ("destination", Some destination);
       ("mode", nullish mode); ("departure_time", Some "now")] in
  Ret (default [] (routes data)).

(** A call of [encodeURIComponent] in awaited code. *)
Definition encoded (s : string) : Prog string :=
  match encodeURIComponent s with
  | inl message => Throw message
  | inr u => Ret u
  end.

(** *** server.js: handlers *)

(** The handler of [POST /search-places] (lines 242-316).  The links
    built from [processedPlaces] once the centre is known
    ([place_embeds], [map_url], [directions_url]) are left out of the
    response: they encode the names of the provider's places, which are
    taken to be well-formed strings. *)
Definition searchPlacesHandler (body : Body) : Prog Response :=
  tryCatch
    (match body with
     | BadBody m => Throw m
     | NullBody => Throw typeErrorMessage
     | JsonBody o =>
         let b := fields o in
         if negb (truthyStr (query b))
         then Ret (json (ErrorJson "Query parameter is required" None) 400)
         else
           let* places :=
             searchPlaces (default "" (query b)) (q_location b)
               (withDefault 2000%float (radius b)) (type b) in
           if (length places =? 0)%nat
           then
             Ret (json
                    (ErrorJson "No places found"
                       (Some ("No results for " +:+ dq +:+
                              default "" (query b) +:+ dq +:+
                              (if truthyStr (q_location b)
                               then " in " +:+ default "" (q_location b)
                               else ""))))
                    404)
           else Ret (searchResponse places)
     end)
    (fun message => Ret (json (ErrorJson "Search failed" (Some message)) 500)).

(** The handler of [POST /directions] (lines 318-367).  [leg] is read
    before the URL is built and its fields after: a lone surrogate in
    [origin] or [destination] throws first, a missing leg next. *)
Definition directionsHandler (body : Body) : Prog Response :=
  tryCatch
    (match body with
     | BadBody m => Throw m
     | NullBody => Throw typeErrorMessage
     | JsonBody o =>
         let b := fields o in
         let mode := withDefault "driving" (mode b) in
         if negb (truthyStr (origin b)) || negb (truthyStr (destination b))
         then Ret (json (ErrorJson "Origin and destination are required" None) 400)
         else
           let* routes :=
             getDirections (default "" (origin b))
               (default "" (destination b)) mode in
           match routes with
           | [] =>
               Ret (json
                      (ErrorJson "No directions found"
                         (Some ("No route found from " +:+ dq +:+
                                default "" (origin b) +:+ dq +:+ " to " +:+
                                dq +:+ default "" (destination b) +:+ dq)))
                      404)
           | route :: _ =>
               let leg := head (legs route) in
               let* encodedOrigin := encoded (default "" (origin b)) in
               let* encodedDestination := encoded (default "" (destination b)) in
               let directionsUrl :=
                 "https://www.google.com/maps/dir/" +:+ encodedOrigin +:+
                 "/" +:+ encodedDestination +:+ "/" in
               match leg with
               | None => Throw typeErrorMessage
               | Some leg =>
                   Ret (json
                          (DirectionsJson
                             {| directions := route;
                                dir_url := directionsUrl;
                                dir_duration := text (duration leg);
                                dir_distance := text (distance leg);
                                dir_start_address := start_address leg;
                                dir_end_address := end_address leg;
                                dir_mode := nullish mode |})
                          200)
               end
           end
     end)
    (fun message => Ret (json (ErrorJson "Directions failed" (Some message)) 500)).

Definition handlerOf (e : Endpoint) : Body → Prog Response :=
  match e with
  | SearchPlaces => searchPlacesHandler
  | Directions => directionsHandler
  end.

(** *** server.js: middleware and routing *)

(** Modelled from the spec: [bearerAuth] of the package
    [hono/bearer-auth], which the repository imports and does not
    contain.  The bearer token of the [Authorization] header is compared
    with the one static secret; a missing header or a mismatch is
    answered with 401, anything else goes on to [next()]. *)
Definition bearerAuth (token : option string) (headers : Headers)
    : option Response :=
  match headers !! "authorization", token with
  | Some header, Some secret =>
      if String.eqb header ("Bearer " +:+ secret) then None
      else Some (json UnauthorizedBody 401)
  | _, _ => Some (json UnauthorizedBody 401)
  end.

(** The chain registered for a protected route (lines 79-82), in the
    order of registration: [bearerAuth], [customRateLimiter], then the
    handler.  [now] is what [Date.now()] reads in the limiter.  The [cors]
    middleware registered before them on every path decorates the
    response headers, which a [Response] here does not carry. *)
Definition protectedRoute (e : Endpoint) (store : RateLimitStore) (now : Z)
    (headers : Headers) (body : Body) : Prog (RateLimitStore * Response) :=
  match bearerAuth (apiSecret config) headers with
  | Some denied => Ret (store, denied)
  | None =>
      match customRateLimiter store headers now with
      | (store', Some limited) => Ret (store', limited)
      | (store', None) =>
          let* response := handlerOf e body in
          Ret (store', response)
      end
  end.

(** The [Request] that [/llm-function] hands to [app.fetch]:
    [parameters] is an object, or [null] ([None]) when the envelope says
    so. *)
Definition internalRequest (e : Endpoint) (original : Request)
    (parameters : option Parameters) : Request :=
  {| path := Protected e;
     headers := headers original;
     req_body := bodyOf parameters |}.

(** The handler of [POST /llm-function] (lines 370-402).  Its
    [app.fetch] on the internal request, whose path is one of the two
    protected routes, runs the chain of that route.  The [catch] of the
    handler has nothing to catch there: the chain always ends in a
    response (lemma [protectedRoute_responds]). *)
Definition llmFunctionHandler (store : RateLimitStore) (now : Z)
    (request : Request) : Prog (RateLimitStore * Response) :=
  match req_body request with
  | BadBody m =>
      Ret (store, json (ErrorJson "Function call failed" (Some m)) 500)
  | NullBody =>
      Ret (store,
           json (ErrorJson "Function call failed" (Some typeErrorMessage)) 500)
  | JsonBody o =>
      let parameters := nullish (withDefault noParameters (parameters o)) in
      let endpoint :=
        if bool_decide (function_name o = Some "search_places")
        then Some SearchPlaces
        else if bool_decide (function_name o = Some "get_directions")
        then Some Directions
        else None in
      match endpoint with
      | None =>
          Ret (store, json (ErrorJson "Unknown function name" None) 400)
      | Some e =>
          let inner := internalRequest e request parameters in
          protectedRoute e store now (headers inner) (req_body inner)
      end
  end.

(** The handler of [POST /llm-function] in the second copy of
    [server.js] (lines 345-389).  For either known function name it
    replaces [c.req] by the object [{...c.req, json}], a copy of the own
    properties of the request, and then asks that object for
    [c.req.header()], a method of the request's class that the copy does
    not have: the call throws a [TypeError] before [app.fetch] is
    reached, and the [catch] answers.  (Where [req] is an accessor of the
    context without a setter, the assignment itself throws the
    [TypeError], to the same effect.) *)
Definition previousLlmFunctionHandler (store : RateLimitStore)
    (request : Request) : Prog (RateLimitStore * Response) :=
  tryCatch
    (match req_body request with
     | BadBody m => Throw m
     | NullBody => Throw typeErrorMessage
     | JsonBody o =>
         if bool_decide (function_name o = Some "search_places")
         then Throw typeErrorMessage
         else if bool_decide (function_name o = Some "get_directions")
         then Throw typeErrorMessage
         else Ret (store, json (ErrorJson "Unknown function name" None) 400)
     end)
    (fun message =>
       Ret (store, json (ErrorJson "Function call failed" (Some message)) 500)).

(** [app.fetch] on the POST routes. *)
Definition appFetch (store : RateLimitStore) (now : Z) (request : Request)
    : Prog (RateLimitStore * Response) :=
  match path request with
  | Protected e =>
      protectedRoute e store now (headers request) (req_body request)
  | LlmFunction => llmFunctionHandler store now request
  end.

End Gateway.

(** A request carries the bearer token the gateway was configured with. *)
Definition authorized (config : Config) (headers : Headers) : Prop :=
  ∃ secret, apiSecret config = Some secret ∧
            headers !! "authorization" = Some ("Bearer " +:+ secret).

(** ** The centre in the words of the specification *)

(** The coordinates of a returned record, [{0, 0}] when it has none. *)
Definition coordinates (place : RawPlace) : LatLng :=
  default {| lat := 0; lng := 0 |} (raw_geometry place ≫= location).

(** [acc + x1 + x2 + ...], the additions of binary64 made from left to
    right. *)
Fixpoint sumFrom (acc : float) (xs : list float) : float :=
  match xs with
  | [] => acc
  | x :: rest => sumFrom (acc + x)%float rest
  end.

(** The arithmetic mean [sum / n] of binary64 numbers, the sum taken from
    0 in the order of the list; a list without elements has none. *)
Definition mean (xs : list float) : option float :=
  match xs with
  | [] => None
  | _ :: _ => Some (sumFrom 0 xs / Z2float (Z.of_nat (length xs)))%float
  end.

(** Two JS numbers are the same number: neither is NaN and [===] holds. *)
Definition sameNumber (a b : option float) : Prop :=
  match a, b with
  | Some x, Some y => PrimFloat.eqb x y = true
  | _, _ => False
  end.

(** ** Sample inputs *)

Definition sampleToString (n : float) : string := "0".

Definition sampleConfig : Config :=
  {| googleMapsApiKey := Some "key"; apiSecret := Some "secret"; port := "3000" |}.

Definition placeAt (latitude longitude : float) : RawPlace :=
  {| raw_name := Some "Cafe";
     raw_vicinity := None;
     raw_formatted_address := Some "1 Main St";
     raw_rating := Some 0%Q;
     raw_price_level := Some 0%Q;
     raw_place_id := Some "id";
     raw_geometry :=
       Some {| location := Some {| lat := latitude; lng := longitude |} |};
     raw_types := Some ["cafe"] |}.

Definition barePlace : RawPlace :=
  {| raw_name := None; raw_vicinity := None; raw_formatted_address := None;
     raw_rating := None; raw_price_level := None; raw_place_id := None;
     raw_geometry := None; raw_types := None |}.

(** Ten records at (0, 0) followed by one at (11, 11). *)
Definition elevenPlaces : list RawPlace :=
  replicate 10 (placeAt 0 0) ++ [placeAt 11 11].

(** A provider that answers every call with the given records. *)
Definition answering (records : list RawPlace) (request : Outbound) : Fetched :=
  HttpReply true 200 "OK"
    (inr {| api_status := "OK"; error_message := None;
            results := Some records; routes := None |}).

Definition searchBody (q : string) : Body :=
  JsonBody
    (objectOf {| query := Some q; q_location := None; radius := Undefined;
                 type := None; origin := None; destination := None;
                 mode := Undefined |}).

Definition forwardedFor (ip : string) : Headers := {[ "x-forwarded-for" := ip ]}.

(** The headers of a client that sends the token of [sampleConfig]. *)
Definition bearerHeaders : Headers :=
  <["authorization" := "Bearer secret"]> (forwardedFor "10.0.0.1").

Definition envelope (name : string) (p : option Parameters) : Body :=
  JsonBody {| fields := noParameters; function_name := Some name;
              parameters := from_option Value Undefined p |}.

(** A store that holds for the client one time, an hour before 0. *)
Definition staleStore : RateLimitStore := {[ "10.0.0.1" := [-3600000] ]}.

(** A hundred checks of one client, one per millisecond from 0. *)
Definition hundredChecks : list (Headers * Z) :=
  map (fun k => (forwardedFor "10.0.0.1", Z.of_nat k)) (seq 0 100).

(** ** server.js: the generated links *)

Section Links.

(** [String(n)] on a JS number, as template literals apply it. *)
Variable Number_toString : float → string.

(** The built-in [encodeURIComponent], on the names of the provider's
    places: well-formed strings, on which it returns. *)
Variable encodeURIComponent : string → string.

Variable config : Config.

(** One entry of [place_embeds]. *)
Record PlaceEmbed := {
  embed_place_id : string;
  embed_name : string;
  embed_html : string;
  embed_directions_url : string
}.

(** The line break of a template literal. *)
Definition nl : string := String (ascii_of_nat 10) EmptyString.

(** The [embedUrl] of a place (server.js, lines 200-204). *)
Definition embedUrlOf (place : PlaceRecord) : string :=
  "https://www.google.com/maps/embed/v1/place?" +:+
  "key=" +:+ default "undefined" (googleMapsApiKey config) +:+
  "&q=place_id:" +:+ place_id place +:+
  "&zoom=15".

(** The object built for one place by the [map] of [generateEmbedHtml]
    (lines 199-226). *)
Definition embedOf (place : PlaceRecord) : PlaceEmbed :=
  let directionsUrl :=
    "https://www.google.com/maps/dir/?api=1&destination_place_id=" +:+
    place_id place +:+ "&destination=" +:+ encodeURIComponent (name place) in
  {| embed_place_id := place_id place;
     embed_name := name place;
     embed_html :=
       "<div style=" +:+ dq +:+ "margin-bottom:16px;" +:+ dq +:+ ">" +:+ nl +:+
       "        <iframe" +:+ nl +:+
       "          width=" +:+ dq +:+ "100%" +:+ dq +:+ nl +:+
       "          height=" +:+ dq +:+ "300" +:+ dq +:+ nl +:+
       "          frameborder=" +:+ dq +:+ "0" +:+ dq +:+ nl +:+
       "          style=" +:+ dq +:+ "border:0;border-radius:8px;" +:+ dq +:+ nl +:+
       "          src=" +:+ dq +:+ embedUrlOf place +:+ dq +:+ nl +:+
       "          allowfullscreen" +:+ nl +:+
       "          loading=" +:+ dq +:+ "lazy" +:+ dq +:+ ">" +:+ nl +:+
       "        </iframe>" +:+ nl +:+
       "      </div>";
     embed_directions_url := directionsUrl |}.

(** [generateEmbedHtml(places)] (lines 191-227): the empty string for no
    place, else one entry for each of the first five. *)
Definition generateEmbedHtml (places : list PlaceRecord)
    : string + list PlaceEmbed :=
  match places with
  | [] => inl ""
  | _ :: _ => inr (map embedOf (take 5 places))
  end.

(** [generateMapUrl(places)] (lines 229-239). *)
Definition generateMapUrl (places : list PlaceRecord) : string :=
  match places with
  | [] => ""
  | firstPlace :: _ =>
      "https://www.google.com/maps/search/" +:+
      encodeURIComponent (name firstPlace) +:+ "/@" +:+
      Number_toString (lat (place_location firstPlace)) +:+ "," +:+
      Number_toString (lng (place_location firstPlace)) +:+ ",13z"
  end.

(** The three link fields of the answer of [/search-places]
    (lines 292-301). *)
Record SearchLinks := {
  place_embeds : string + list PlaceEmbed;
  map_url : string;
  directions_url : string
}.

Definition searchLinks (processed : list PlaceRecord) : SearchLinks :=
  let placeEmbeds := generateEmbedHtml processed in
  let mapUrl := generateMapUrl processed in
  {| place_embeds := placeEmbeds;
     map_url := mapUrl;
     directions_url :=
       match placeEmbeds with
       | inr (first :: _) => embed_directions_url first
       | _ => ""
       end |}.

End Links.

(** ** index.js: the server *)

(** The second argument of [new Response]. *)
Record Init := {
  init_status : option Z;
  init_headers : option (gmap string string)
}.

(** A place as [formatPlace] gives it; [photoReference] and [openNow],
    read from fields that [RawPlace] does not carry, are left out. *)
Record FormattedPlace := {
  fp_id : option string;
  fp_name : option string;
  fp_address : option string;
  fp_rating : option Q;
  fp_priceLevel : option Q;
  fp_types : option (list string);
  fp_location : LatLng;
  fp_mapLink : string;
  fp_embedUrl : string
}.

(** What the server of index.js puts in a body. *)
Inductive IndexBody :=
| NoBody                                         (* [null] *)
| TextBody (content : string)
| ErrorBody (error : string) (provider_status : option string)
            (message : option string)            (* a stringified error object *)
| ResultsBody (formatted : list FormattedPlace) (provider_status : string)
| DetailsBody (data : ApiData).                  (* the [result] of [data], stringified *)

Record IndexResponse := {
  ix_status : Z;
  ix_headers : gmap string string;
  ix_body : IndexBody
}.

Record IndexRequest := {
  method : string;
  pathname : string;
  searchParams : list (string * string)
}.

Definition corsHeaders : gmap string string :=
  list_to_map
    [("Access-Control-Allow-Origin", "*");
     ("Access-Control-Allow-Methods", "GET, POST, OPTIONS");
     ("Access-Control-Allow-Headers", "Content-Type, Authorization")].

(** [searchParams.get(name)]: the first value of the name. *)
Definition getParam (name : string) (ps : list (string * string))
    : option string :=
  snd <$> List.find (fun kv => String.eqb kv.1 name) ps.

Definition statusOnly (code : Z) : option Init :=
  Some {| init_status := Some code; init_headers := None |}.

Definition jsonContent : option Init :=
  Some {| init_status := None;
          init_headers := Some {[ "Content-Type" := "application/json" ]} |}.

(** [f] on each element in turn, as [Array.prototype.map] calls it: the
    first throw ends it. *)
Fixpoint mapProg {A B} (f : A → Prog B) (l : list A) : Prog (list B) :=
  match l with
  | [] => Ret []
  | x :: rest =>
      let* y := f x in
      let* ys := mapProg f rest in
      Ret (y :: ys)
  end.

(** Every value a computation can return satisfies [P]. *)
Fixpoint allRet {A} (P : A → Prop) (m : Prog A) : Prop :=
  match m with
  | Ret a => P a
  | Throw _ => True
  | Fetch _ k => ∀ reply, allRet P (k reply)
  end.

Section Index.

Variable Number_toString : float → string.
Variable typeErrorMessage : string.
Variable API_KEY : string.

(** What [file("./openapi.json").text()] resolves to, [inl] when it
    rejects. *)
Variable openapiFile : string + string.

(** [withCORS(body, init)] (index.js, lines 14-22): without [init] the
    read of [init.headers] throws; the headers of [init] come first and
    the CORS headers replace those of the same name. *)
Definition withCORS (body : IndexBody) (init : option Init)
    : Prog IndexResponse :=
  match init with
  | None => Throw typeErrorMessage
  | Some i =>
      Ret {| ix_status := default 200 (init_status i);
             ix_headers := corsHeaders ∪ default ∅ (init_headers i);
             ix_body := body |}
  end.

(** [formatPlace(place)] (lines 41-53): reading [place.geometry.location]
    and its [lat] throws when either is missing. *)
Definition formatPlace (place : RawPlace) : Prog FormattedPlace :=
  match raw_geometry place ≫= location with
  | None => Throw typeErrorMessage
  | Some l =>
      Ret {| fp_id := raw_place_id place;
             fp_name := raw_name place;
             fp_address := raw_formatted_address place;
             fp_rating := raw_rating place;
             fp_priceLevel := raw_price_level place;
             fp_types := raw_types place;
             fp_location := l;
             fp_mapLink :=
               "https://www.google.com/maps/search/?api=1&query=" +:+
               Number_toString (lat l) +:+ "," +:+ Number_toString (lng l);
             fp_embedUrl :=
               "https://www.google.com/maps/embed/v1/place?key=" +:+ API_KEY
               +:+ "&q=" +:+ Number_toString (lat l) +:+ "," +:+
               Number_toString (lng l) |}
  end.

(** The text-search request of [/api/places/search], from what was
    appended to [params]. *)
Definition textSearch (query : string) (located : list (string * string))
    (placeType : option string) : Outbound :=
  {| endpoint := "place/textsearch/json";
     params :=
       [("query", query); ("key", API_KEY)] ++ located ++
       (if truthyStr placeType then [("type", default "" placeType)] else []) |}.

(** The branch of [/api/places/search] (lines 79-128).  [geocode]
    returns a string on each of its paths, so the test
    [typeof location === "string"] always holds. *)
Definition indexSearch (sp : list (string * string)) : Prog IndexResponse :=
  let query := getParam "query" sp in
  let radius := strOr (getParam "radius" sp) "50000" in
  let placeType := getParam "type" sp in
  let place := getParam "location" sp in
  if negb (truthyStr query)
  then withCORS (ErrorBody "Query parameter is required" None None)
         (statusOnly 400)
  else
    let* located :=
      if truthyStr place
      then
        let* coordinates :=
          geocode Number_toString typeErrorMessage API_KEY (default "" place) in
        Ret [("location", coordinates); ("radius", radius)]
      else Ret [] in
    Fetch (textSearch (default "" query) located placeType)
      (fun reply =>
         match reply with
         | NetworkFailure m => Throw m
         | HttpReply _ _ _ (inl m) => Throw m
         | HttpReply _ _ _ (inr data) =>
             if negb (String.eqb (api_status data) "OK") &&
                negb (String.eqb (api_status data) "ZERO_RESULTS")
             then
               withCORS
                 (ErrorBody "Google Places API error"
                    (Some (api_status data))
                    (Some (strOr (error_message data) "Unknown error")))
                 (statusOnly 500)
             else
               match results data with
               | None => Throw typeErrorMessage
               | Some records =>
                   let* formatted := mapProg formatPlace records in
                   withCORS
                     (ResultsBody formatted (api_status data))
                     jsonContent
               end
         end).

(** The URL of the details request, after [maps/api/]: the place id goes
    into the template as it is. *)
Definition detailsUrl (placeId : string) : string :=
  "place/details/json?place_id=" +:+ placeId +:+ "&key=" +:+ API_KEY +:+
  "&fields=name,formatted_address,formatted_phone_number,website,rating,reviews,opening_hours,photos,geometry".

(** The branch of [/api/places/details] (lines 131-158). *)
Definition indexDetails (sp : list (string * string)) : Prog IndexResponse :=
  let placeId := getParam "place_id" sp in
  if negb (truthyStr placeId)
  then withCORS (ErrorBody "place_id parameter is required" None None)
         (statusOnly 400)
  else
    Fetch {| endpoint := detailsUrl (default "" placeId); params := [] |}
      (fun reply =>
         match reply with
         | NetworkFailure m => Throw m
         | HttpReply _ _ _ (inl m) => Throw m
         | HttpReply _ _ _ (inr data) =>
             if negb (String.eqb (api_status data) "OK")
             then
               withCORS
                 (ErrorBody "Google Places API error"
                    (Some (api_status data)) None)
                 (statusOnly 500)
             else withCORS (DetailsBody data) jsonContent
         end).

(** The [fetch] handler of [serve] (lines 58-161). *)
Definition indexFetch (req : IndexRequest) : Prog IndexResponse :=
  if String.eqb (method req) "OPTIONS"
  then withCORS NoBody (statusOnly 204)
  else if String.eqb (pathname req) "/health"
  then withCORS (TextBody "OK") None
  else if String.eqb (pathname req) "/openapi.json"
  then
    match openapiFile with
    | inl m => Throw m
    | inr content => withCORS (TextBody content) jsonContent
    end
  else if String.eqb (pathname req) "/api/places/search" &&
          String.eqb (method req) "GET"
  then indexSearch (searchParams req)
  else if String.eqb (pathname req) "/api/places/details" &&
          String.eqb (method req) "GET"
  then indexDetails (searchParams req)
  else withCORS (TextBody "Not Found") (statusOnly 404).

(** [serve]: what [fetch] throws goes to the [error] handler
    (lines 163-166). *)
Definition indexServe (req : IndexRequest) : Prog IndexResponse :=
  tryCatch (indexFetch req)
    (fun _ => withCORS (TextBody "Internal Server Error") (statusOnly 500)).

End Index.

(** ** The characters of a pattern *)

(** The characters a regular expression can consume. *)
Fixpoint mayUse (r : Regex) (c : ascii) : bool :=
  match r with
  | Empty | Eps => false
  | Chr d => Ascii.eqb c d
  | Digit => isDigit c
  | Alt r s | Seq r s => mayUse r c || mayUse s c
  | Star r => mayUse r c
  end.

(** A digit, a minus sign, a dot or a comma. *)
Definition coordinateChar (c : ascii) : bool :=
  isDigit c || Ascii.eqb c "-" || Ascii.eqb c "." || Ascii.eqb c ",".

(** ** More sample inputs *)

(** A provider that fails every call at the transport. *)
Definition offline (request : Outbound) : Fetched :=
  NetworkFailure "fetch failed".

Definition samplePlace : PlaceRecord :=
  {| name := "Cafe"; address := "1 Main St"; rating := None;
     price_level := None; place_id := "id";
     place_location := {| lat := 1; lng := 2 |}; types := [] |}.

Definition sampleRoute : Route :=
  {| legs := [{| duration := {| text := "5 mins" |};
                 distance := {| text := "1 km" |};
                 start_address := "A"; end_address := "B" |}] |}.

(** A provider that answers every call with one route. *)
Definition routing (request : Outbound) : Fetched :=
  HttpReply true 200 "OK"
    (inr {| api_status := "OK"; error_message := None;
            results := None; routes := Some [sampleRoute] |}).

Definition directionsBody (from to : string) : Body :=
  JsonBody
    (objectOf {| query := None; q_location := None; radius := Undefined;
                 type := None; origin := Some from; destination := Some to;
                 mode := Undefined |}).

(** A hundred checks without an [x-forwarded-for] header. *)
Definition anonymousChecks : list (Headers * Z) :=
  map (fun k => (∅, Z.of_nat k)) (seq 0 100).

Definition getRequest (path : string) (sp : list (string * string))
    : IndexRequest :=
  {| method := "GET"; pathname := path; searchParams := sp |}.

(** The search of the test "search with coordinates" of index.test.js. *)
Definition coordinateSearch : IndexRequest :=
  getRequest "/api/places/search"
    [("query", "restaurant"); ("location", "40.7128,-74.0060");
     ("radius", "1000"); ("type", "restaurant")].

(** The search of the test "search with location name". *)
Definition namedSearch : IndexRequest :=
  getRequest "/api/places/search"
    [("query", "pizza"); ("location", "New York"); ("radius", "5000")].

(** [{query: "cafe"}] *)
Definition cafeParameters : Parameters :=
  {| query := Some "cafe"; q_location := None; radius := Undefined; type := None;
     origin := None; destination := None; mode := Undefined |}.

(** An [encodeURIComponent] that returns every string as it is. *)
Definition sampleEncode (s : string) : string + string := inr s.

(** An [encodeURIComponent] that refuses the string "?". *)
Definition strictEncode (s : string) : string + string :=
  if String.eqb s "?" then inl "URI malformed" else inr s.

(** [{origin, destination, mode: null}] *)
Definition nullModeBody (from to : string) : Body :=
  JsonBody
    (objectOf {| query := None; q_location := None; radius := Undefined;
                 type := None; origin := Some from; destination := Some to;
                 mode := Null |}).



(* ================================================================== *)
(** * Properties *)

(** ** Rate limiter *)

Lemma checks_snoc (store : RateLimitStore) history headers now :
  checks store (history ++ [(headers, now)])
  = (customRateLimiter (checks store history) headers now).1.
Proof.
  revert store. induction history as [|[h t] rest IH]; intros store; simpl.
  - reflexivity.
  - apply IH.
Qed.

Lemma limiter_ledger_other store headers now c :
  c ≠ clientIP headers →
  ledger (customRateLimiter store headers now).1 c = ledger store c.
Proof.
  intros Hne. unfold customRateLimiter, ledger.
  destruct (maxRequests <=? _)%nat; simpl; [reflexivity|].
  rewrite lookup_insert_ne; [reflexivity | congruence].
Qed.

Lemma timesOf_snoc c history headers now :
  timesOf c (history ++ [(headers, now)])
  = timesOf c history ++ (if String.eqb (clientIP headers) c then [now] else []).
Proof.
  unfold timesOf. rewrite List.filter_app, fmap_app. simpl.
  destruct (String.eqb (clientIP headers) c); reflexivity.
Qed.

Lemma filter_keeps_all {A} (p : A → bool) (l : list A) :
  (∀ x, x ∈ l → p x = true) → List.filter p l = l.
Proof.
  induction l as [|a l IH]; intros H; simpl; [reflexivity|].
  rewrite (H a) by constructor. f_equal. apply IH.
  intros x Hx. apply H. by constructor.
Qed.

Lemma filter_length_all {A} (p : A → bool) (l : list A) :
  length (List.filter p l) = length l → List.filter p l = l.
Proof.
  induction l as [|a l IH]; simpl; [reflexivity|].
  pose proof (List.filter_length_le p l) as Hle.
  destruct (p a); simpl; intros H.
  - f_equal. apply IH. lia.
  - lia.
Qed.

Lemma sameWindow_init ts now : sameWindow (ts ++ [now]) → sameWindow ts.
Proof.
  intros H i j ti tj Hij Hi Hj.
  apply (H i j); [done| |]; by apply lookup_app_l_Some.
Qed.

Lemma sameWindow_last ts now t :
  sameWindow (ts ++ [now]) → t ∈ ts → now - t < windowMs.
Proof.
  intros H [i Hi]%list_elem_of_lookup.
  apply (H i (length ts)).
  - by apply lookup_lt_Some in Hi.
  - by apply lookup_app_l_Some.
  - rewrite lookup_app_r by lia. by rewrite Nat.sub_diag.
Qed.

Lemma filter_drops_all {A} (p : A → bool) (l : list A) :
  (∀ x, x ∈ l → p x = false) → List.filter p l = [].
Proof.
  induction l as [|a l IH]; intros H; simpl; [reflexivity|].
  rewrite (H a) by constructor. apply IH.
  intros x Hx. apply H. by constructor.
Qed.

Lemma filter_agree {A} (p q : A → bool) (l : list A) :
  (∀ x, x ∈ l → p x = q x) → List.filter p l = List.filter q l.
Proof.
  intros H. apply List.filter_ext_in. intros x Hx. by apply H, list_elem_of_In.
Qed.

Lemma limiter_stamps store headers now c t :
  t ∈ ledger (customRateLimiter store headers now).1 c →
  t ∈ ledger store c ∨ (c = clientIP headers ∧ t = now).
Proof.
  destruct (decide (c = clientIP headers)) as [->|Hne].
  - unfold customRateLimiter. fold (ledger store (clientIP headers)).
    destruct (maxRequests <=? _)%nat; simpl; [by left|].
    unfold ledger at 1. rewrite lookup_insert_eq. simpl.
    intros [Ht | ->%list_elem_of_singleton]%elem_of_app; [left | by right].
    apply list_elem_of_In, List.filter_In in Ht.
    apply list_elem_of_In, Ht.
  - rewrite limiter_ledger_other by done. by left.
Qed.

(** What a ledger holds was there at the start or is the time of a check
    of that client. *)
Lemma checks_stamps_client store history c t :
  t ∈ ledger (checks store history) c →
  t ∈ ledger store c ∨ t ∈ timesOf c history.
Proof.
  induction history as [|[headers now] history IH] using rev_ind.
  - by left.
  - rewrite checks_snoc, timesOf_snoc.
    intros [Ht | [-> ->]]%limiter_stamps.
    + destruct (IH Ht) as [?|?]; [by left|]. right. apply elem_of_app. by left.
    + right. rewrite String.eqb_refl. apply elem_of_app. right.
      by apply list_elem_of_singleton.
Qed.

Lemma stale_init old ts now : stale old (ts ++ [now]) → stale old ts.
Proof.
  intros H t t' Ht Ht'. apply H; [done|]. apply elem_of_app. by left.
Qed.

Lemma stale_last old ts now t : stale old (ts ++ [now]) → t ∈ old → windowMs ≤ now - t.
Proof.
  intros H Ht. apply H; [done|]. apply elem_of_app. right.
  by apply list_elem_of_singleton.
Qed.

(** Within one window nothing of it is pruned: what a check finds valid in
    the ledger of its client is the list of the first [maxRequests] check
    times of the window, whatever older times the store held. *)
Lemma valid_sameWindow store c history now :
  stale (ledger store c) (timesOf c history ++ [now]) →
  sameWindow (timesOf c history ++ [now]) →
  List.filter (fun time => now - time <? windowMs)
    (ledger (checks store history) c)
  = take maxRequests (timesOf c history).
Proof.
  revert now.
  induction history as [|[headers t1] history IH] using rev_ind;
    intros now Hstale Hw.
  - simpl. apply filter_drops_all. intros t Ht. apply Z.ltb_ge.
    by apply (stale_last _ _ _ _ Hstale).
  - rewrite checks_snoc. rewrite timesOf_snoc in *.
    destruct (String.eqb (clientIP headers) c) eqn:Hc.
    + apply String.eqb_eq in Hc. subst c.
      set (ts := timesOf (clientIP headers) history) in *.
      pose proof (IH t1 (stale_init _ _ _ Hstale) (sameWindow_init _ _ Hw))
        as Hvalid.
      unfold customRateLimiter.
      fold (ledger (checks store history) (clientIP headers)).
      rewrite Hvalid.
      destruct (maxRequests <=? _)%nat eqn:Hfull; simpl.
      * apply Nat.leb_le in Hfull. rewrite length_take in Hfull.
        rewrite take_app_le by lia. rewrite <- Hvalid.
        apply filter_agree. intros t Ht.
        apply checks_stamps_client in Ht as [Ht|Ht].
        -- pose proof (stale_last _ _ _ _ Hstale Ht).
           pose proof (stale_last _ _ _ _ (stale_init _ _ _ Hstale) Ht).
           transitivity false; [|symmetry]; by apply Z.ltb_ge.
        -- fold ts in Ht.
           pose proof (sameWindow_last _ _ _ (sameWindow_init _ _ Hw) Ht).
           assert (t ∈ ts ++ [t1]) as Ht' by (apply elem_of_app; by left).
           pose proof (sameWindow_last _ _ _ Hw Ht').
           transitivity true; [|symmetry]; by apply Z.ltb_lt.
      * apply Nat.leb_gt in Hfull. rewrite length_take in Hfull.
        unfold ledger. rewrite lookup_insert_eq. simpl.
        rewrite (take_ge ts) by lia.
        rewrite take_ge by (rewrite length_app; simpl; lia).
        apply filter_keeps_all. intros t Ht. apply Z.ltb_lt.
        by apply (sameWindow_last _ _ _ Hw).
    + rewrite app_nil_r in *.
      rewrite limiter_ledger_other; [by apply IH|].
      intros ->. by rewrite String.eqb_refl in Hc.
Qed.


Lemma limiter_length_bound store headers now :
  (∀ c, (length (ledger store c) ≤ maxRequests)%nat) →
  ∀ c, (length (ledger (customRateLimiter store headers now).1 c) ≤ maxRequests)%nat.
Proof.
  intros Hb c. destruct (decide (c = clientIP headers)) as [->|Hne].
  - unfold customRateLimiter. fold (ledger store (clientIP headers)).
    destruct (maxRequests <=? _)%nat eqn:Hfull; simpl; [apply Hb|].
    apply Nat.leb_gt in Hfull. unfold ledger at 1. rewrite lookup_insert_eq.
    simpl. rewrite length_app. simpl. lia.
  - rewrite limiter_ledger_other by done. apply Hb.
Qed.

Lemma checks_length_bound history c :
  (length (ledger (checks ∅ history) c) ≤ maxRequests)%nat.
Proof.
  revert c. induction history as [|[headers now] history IH] using rev_ind.
  - intros c. simpl. unfold ledger. rewrite lookup_empty. simpl. lia.
  - rewrite checks_snoc. by apply limiter_length_bound.
Qed.

(** One check leaves, for the checked client, only times less than
    [windowMs] old, whether it allows or denies, once no ledger is longer
    than [maxRequests]. *)
Lemma limiter_pruned store headers now t :
  (length (ledger store (clientIP headers)) ≤ maxRequests)%nat →
  t ∈ ledger (customRateLimiter store headers now).1 (clientIP headers) →
  now - t < windowMs.
Proof.
  intros Hlen. unfold customRateLimiter.
  fold (ledger store (clientIP headers)).
  set (valid := List.filter _ _).
  pose proof (List.filter_length_le (fun time => now - time <? windowMs)
                (ledger store (clientIP headers))) as Hle.
  fold valid in Hle.
  destruct (maxRequests <=? length valid)%nat eqn:Hfull; simpl.
  - apply Nat.leb_le in Hfull. intros Ht.
    assert (Hall : valid = ledger store (clientIP headers)).
    { apply filter_length_all. fold valid. lia. }
    rewrite <- Hall in Ht. apply list_elem_of_In, List.filter_In in Ht.
    apply Z.ltb_lt, Ht.
  - unfold ledger at 1. rewrite lookup_insert_eq. simpl.
    intros [Ht | ->%list_elem_of_singleton]%elem_of_app.
    + apply list_elem_of_In, List.filter_In in Ht. apply Z.ltb_lt, Ht.
    + unfold windowMs. lia.
Qed.

Lemma checks_stamps history c t :
  t ∈ ledger (checks ∅ history) c → t ∈ history.*2.
Proof.
  revert t. induction history as [|[headers now] history IH] using rev_ind;
    intros t.
  - simpl. unfold ledger. rewrite lookup_empty. simpl. by intros ?%elem_of_nil.
  - rewrite checks_snoc, fmap_app. simpl.
    intros [Ht | [_ ->]]%limiter_stamps; apply elem_of_app.
    + left. by apply IH.
    + right. by apply list_elem_of_singleton.
Qed.

Lemma monotone_last ts now t : monotone (ts ++ [now]) → t ∈ ts → t ≤ now.
Proof.
  intros H [i Hi]%list_elem_of_lookup.
  apply (H i (length ts)).
  - apply lookup_lt_Some in Hi. lia.
  - by apply lookup_app_l_Some.
  - rewrite lookup_app_r by lia. by rewrite Nat.sub_diag.
Qed.

(** C8: after any check of a running process (the store starts empty and
    only the limiter writes it), the ledger of the checked client holds
    only times less than one hour old; with a clock that never goes back
    they all lie in [[now - windowMs, now]]. *)
Theorem ledger_within_trailing_window
    (history : list (Headers * Z)) (headers : Headers) (now : Z) :
  let store' := (customRateLimiter (checks ∅ history) headers now).1 in
  (∀ t, t ∈ ledger store' (clientIP headers) → now - t < windowMs) ∧
  (monotone (history.*2 ++ [now]) →
   ∀ t, t ∈ ledger store' (clientIP headers) → now - windowMs ≤ t ≤ now).
Proof.
  intros store'.
  assert (Hpruned :
    ∀ t, t ∈ ledger store' (clientIP headers) → now - t < windowMs).
  { intros t. apply limiter_pruned, checks_length_bound. }
  split; [exact Hpruned|].
  intros Hmono t Ht. split; [specialize (Hpruned t Ht); lia|].
  apply limiter_stamps in Ht as [Ht | [_ ->]]; [|lia].
  eapply monotone_last; [exact Hmono|]. by eapply checks_stamps.
Qed.

(** ** Start-up *)

(** server.js exits with code 1 unless both secrets are set. *)
Lemma serverStartup_fails_fast (env : Env) :
  truthyStr (GOOGLE_MAPS_API_KEY env) = false ∨
  truthyStr (API_SECRET env) = false →
  serverStartup env = Exit 1.
Proof.
  unfold serverStartup. simpl.
  destruct (truthyStr (GOOGLE_MAPS_API_KEY env)); simpl; [|done].
  destruct (truthyStr (API_SECRET env)); simpl; [|done].
  by intros [?|?].
Qed.

Lemma serverStartup_serves (env : Env) (config : Config) :
  serverStartup env = Serving config →
  truthyStr (googleMapsApiKey config) = true ∧
  truthyStr (apiSecret config) = true.
Proof.
  unfold serverStartup. cbv zeta.
  destruct (truthyStr (googleMapsApiKey (configOf env))) eqn:Hkey;
    [|intros [=]].
  destruct (truthyStr (apiSecret (configOf env))) eqn:Hsecret;
    [|intros [=]].
  intros Heq. injection Heq as <-. by split.
Qed.

(** index.js has one secret and stops on an uncaught error without it. *)
Lemma indexStartup_fails_fast (env : Env) :
  truthyStr (GOOGLE_MAPS_API_KEY env) = false →
  indexStartup env = Uncaught "Missing GOOGLE_MAPS_API_KEY".
Proof. unfold indexStartup. by intros ->. Qed.

(** C9, on the second copy of server.js: with the API key set and
    [API_SECRET] absent it does not exit, it goes on to serve with an
    undefined bearer secret; server.js itself exits with code 1 on the
    same environment. *)
Theorem previousServerStartup_serves_without_secret :
  let env := {| GOOGLE_MAPS_API_KEY := Some "key";
                API_SECRET := None;
                PORT := None |} in
  previousServerStartup env
  = Serving {| googleMapsApiKey := Some "key";
               apiSecret := None;
               port := "3000" |}
  ∧ serverStartup env = Exit 1.
Proof. split; reflexivity. Qed.

(** ** Normalisation *)

Lemma processedPlaces_lookup (places : list RawPlace) (i : nat) :
  processedPlaces places !! i
  = if (i <? 10)%nat then processPlace <$> places !! i else None.
Proof.
  unfold processedPlaces. rewrite list_lookup_fmap.
  destruct (i <? 10)%nat eqn:Hi.
  - apply Nat.ltb_lt in Hi. by rewrite lookup_take_lt.
  - apply Nat.ltb_ge in Hi. by rewrite lookup_take_ge.
Qed.


(** C10: a rating or a price level that the provider gives as 0 comes out
    of the normaliser as [null], as a missing one does. *)
Theorem zero_rating_and_price_become_null
    (places : list RawPlace) (i : nat) (place : RawPlace) (zero : Q) :
  places !! i = Some place →
  (i < 10)%nat →
  (zero == 0)%Q →
  ∃ p, processedPlaces places !! i = Some p ∧
    (raw_rating place = Some zero → rating p = None) ∧
    (raw_price_level place = Some zero → price_level p = None).
Proof.
  intros Hplace Hi Hzero. exists (processPlace place). split.
  { rewrite processedPlaces_lookup, Hplace.
    apply Nat.ltb_lt in Hi. by rewrite Hi. }
  apply Qeq_bool_iff in Hzero.
  unfold processPlace, numOrNull; simpl.
  split; intros ->; by rewrite Hzero.
Qed.

(** ** The pattern matcher *)

Lemma nullable_Matches (r : Regex) : nullable r = true ↔ Matches r "".
Proof.
  split.
  - induction r; simpl; try discriminate; intros H.
    + constructor.
    + apply orb_true_iff in H as [H|H]; [apply MatchAltL | apply MatchAltR]; auto.
    + apply andb_true_iff in H as [H1 H2].
      apply (MatchSeq r1 r2 "" ""); auto.
    + constructor.
  - intros H. remember "" as w eqn:Hw. induction H; simpl; try discriminate; auto.
    + rewrite IHMatches by done. reflexivity.
    + rewrite IHMatches by done. apply orb_true_r.
    + destruct u; [|discriminate]. change ("" +:+ v) with v in Hw. subst v.
      rewrite IHMatches1, IHMatches2 by done. reflexivity.
Qed.

Lemma deriv_Matches (c : ascii) (r : Regex) (w : string) :
  Matches (deriv c r) w ↔ Matches r (String c w).
Proof.
  split.
  - revert w. induction r; simpl; intros w H.
    + inversion H.
    + inversion H.
    + destruct (Ascii.eqb c c0) eqn:Hc; [|inversion H].
      apply Ascii.eqb_eq in Hc. subst c0. inversion H; subst. constructor.
    + destruct (isDigit c) eqn:Hc; [|inversion H].
      inversion H; subst. by constructor.
    + inversion H; subst; [apply MatchAltL | apply MatchAltR]; auto.
    + destruct (nullable r1) eqn:Hnull.
      * inversion H as [| | | ? ? ? H1 | ? ? ? H2 | | |]; subst.
        -- inversion H1; subst.
           apply (MatchSeq r1 r2 (String c u) v); auto.
        -- apply (MatchSeq r1 r2 "" (String c w)); auto.
           by apply nullable_Matches.
      * inversion H; subst. apply (MatchSeq r1 r2 (String c u) v); auto.
    + inversion H; subst.
      apply (MatchStarCons r (String c u) v); auto.
  - intros H. remember (String c w) as cw eqn:Hcw. revert w Hcw.
    induction H; intros w' Hcw; simpl; try discriminate.
    + injection Hcw as -> <-. rewrite Ascii.eqb_refl. constructor.
    + injection Hcw as -> <-. rewrite H. constructor.
    + apply MatchAltL. auto.
    + apply MatchAltR. auto.
    + destruct u as [|a u].
      * change ("" +:+ v) with v in Hcw. subst v.
        apply nullable_Matches in H. rewrite H. apply MatchAltR. auto.
      * change (String a u +:+ v) with (String a (u +:+ v)) in Hcw.
        injection Hcw as -> <-.
        destruct (nullable r); [apply MatchAltL|]; constructor; auto.
    + destruct u as [|a u].
      * change ("" +:+ v) with v in Hcw. auto.
      * change (String a u +:+ v) with (String a (u +:+ v)) in Hcw.
        injection Hcw as -> <-. constructor; auto.
Qed.

(** [test] decides whether the whole string matches. *)
Lemma test_Matches (r : Regex) (w : string) : test r w = true ↔ Matches r w.
Proof.
  revert r. induction w as [|c w IH]; intros r; simpl.
  - apply nullable_Matches.
  - rewrite IH. apply deriv_Matches.
Qed.

(** ** The geocoders *)

Example test_coordinates : test latLngPattern "40.7128,-74.0060" = true.
Proof. reflexivity. Qed.

Example test_integers : test latLngPattern "-6,106" = true.
Proof. reflexivity. Qed.

Example test_place_name : test latLngPattern "New York" = false.
Proof. reflexivity. Qed.

Example test_trailing_text : test latLngPattern "40.7,-74.0 " = false.
Proof. reflexivity. Qed.

Example test_missing_digits : test latLngPattern ".5,1" = false.
Proof. reflexivity. Qed.

(** C3, as the code has it.  [geocode] of index.js returns a string that
    matches the pattern, and the empty string, as it is without any
    outbound call, and queries [geocode/json] for every other string;
    [geocodeLocation] of server.js has no pattern and queries
    [geocode/json] for every address. *)
Theorem geocode_passes_coordinates_through
    (Number_toString : float → string) (typeErrorMessage : string)
    (config : Config) (API_KEY : string) (locationText : string) :
  (test latLngPattern locationText = true →
     geocode Number_toString typeErrorMessage API_KEY locationText
     = Ret locationText) ∧
  geocode Number_toString typeErrorMessage API_KEY "" = Ret "" ∧
  (test latLngPattern locationText = false → locationText ≠ "" →
     ∃ k, geocode Number_toString typeErrorMessage API_KEY locationText
          = Fetch {| endpoint := "geocode/json";
                     params := [("address", locationText); ("key", API_KEY)] |}
              k) ∧
  (∃ k, geocodeLocation Number_toString typeErrorMessage config locationText
        = Fetch {| endpoint := "geocode/json";
                   params := [("key", default "undefined" (googleMapsApiKey config));
                              ("address", locationText)] |}
            k).
Proof.
  repeat split.
  - intros Hmatch. unfold geocode. rewrite Hmatch. by rewrite orb_true_r.
  - intros Hmatch Hne. unfold geocode. rewrite Hmatch.
    destruct locationText; [done|]. simpl. eauto.
  - unfold geocodeLocation, callGoogleMapsAPI. simpl. eauto.
Qed.

(** C3 as stated fails on server.js: for an address that matches the
    pattern, [geocodeLocation] makes one call to [geocode/json]; and on
    index.js the empty string, which does not match, is returned without
    a call. *)
Lemma geocodeLocation_calls_out_for_coordinates :
  test latLngPattern "40.7128,-74.0060" = true ∧
  (run (answering [])
     (geocodeLocation sampleToString "TypeError" sampleConfig
        "40.7128,-74.0060")).1
  = [{| endpoint := "geocode/json";
        params := [("key", "key"); ("address", "40.7128,-74.0060")] |}] ∧
  test latLngPattern "" = false ∧
  run (answering []) (geocode sampleToString "TypeError" "key" "")
  = ([], inr "").
Proof. repeat split. Qed.

(** ** Running awaited code *)

Lemma run_bind {A B} (upstream : Outbound → Fetched)
    (m : Prog A) (f : A → Prog B) :
  run upstream (bind m f)
  = match run upstream m with
    | (calls, inl e) => (calls, inl e)
    | (calls, inr a) =>
        let '(more, out) := run upstream (f a) in (calls ++ more, out)
    end.
Proof.
  induction m as [a|e|r k IH]; simpl.
  - by destruct (run upstream (f a)).
  - reflexivity.
  - rewrite IH. destruct (run upstream (k (upstream r))) as [calls [e|a]].
    + reflexivity.
    + by destruct (run upstream (f a)).
Qed.

Lemma run_tryCatch {A} (upstream : Outbound → Fetched)
    (m : Prog A) (h : string → Prog A) :
  run upstream (tryCatch m h)
  = match run upstream m with
    | (calls, inl e) =>
        let '(more, out) := run upstream (h e) in (calls ++ more, out)
    | (calls, inr a) => (calls, inr a)
    end.
Proof.
  induction m as [a|e|r k IH]; simpl.
  - reflexivity.
  - by destruct (run upstream (h e)).
  - rewrite IH. destruct (run upstream (k (upstream r))) as [calls [e|a]].
    + by destruct (run upstream (h e)).
    + reflexivity.
Qed.

(** The handlers catch everything: a run of one always ends in a
    response. *)
Lemma searchPlacesHandler_responds Number_toString typeErrorMessage config
    upstream body :
  ∃ calls response,
    run upstream (searchPlacesHandler Number_toString typeErrorMessage config body)
    = (calls, inr response).
Proof.
  unfold searchPlacesHandler. rewrite run_tryCatch.
  destruct (run upstream _) as [calls [e|response]]; simpl; eauto.
Qed.

Lemma directionsHandler_responds Number_toString typeErrorMessage config
    encodeURIComponent upstream body :
  ∃ calls response,
    run upstream
      (directionsHandler Number_toString typeErrorMessage config
         encodeURIComponent body)
    = (calls, inr response).
Proof.
  unfold directionsHandler. rewrite run_tryCatch.
  destruct (run upstream _) as [calls [e|response]]; simpl; eauto.
Qed.

(** So does the chain of a protected route: nothing it runs throws past
    it. *)
Lemma protectedRoute_responds Number_toString typeErrorMessage config
    encodeURIComponent upstream e store now hdrs body :
  ∃ calls store' response,
    run upstream
      (protectedRoute Number_toString typeErrorMessage config
         encodeURIComponent e store now hdrs body)
    = (calls, inr (store', response)).
Proof.
  unfold protectedRoute.
  destruct (bearerAuth _ _) as [denied|]; simpl; [eauto|].
  destruct (customRateLimiter store hdrs now) as [store' [limited|]];
    simpl; [eauto|].
  rewrite run_bind.
  destruct e; simpl.
  - destruct (searchPlacesHandler_responds Number_toString typeErrorMessage
                config upstream body) as (calls & response & ->).
    simpl. eauto.
  - destruct (directionsHandler_responds Number_toString typeErrorMessage
                config encodeURIComponent upstream body)
      as (calls & response & ->).
    simpl. eauto.
Qed.

(** What the handler of [/search-places] answers once the body is parsed
    and names a query, in terms of what [searchPlaces] returned. *)
Lemma searchPlacesHandler_run Number_toString typeErrorMessage config
    upstream (o : JsonObject) calls places :
  truthyStr (query (fields o)) = true →
  run upstream
    (searchPlaces Number_toString typeErrorMessage config
       (default "" (query (fields o))) (q_location (fields o))
       (withDefault 2000%float (radius (fields o))) (type (fields o)))
  = (calls, inr places) →
  run upstream
    (searchPlacesHandler Number_toString typeErrorMessage config (JsonBody o))
  = (calls,
     inr (if (length places =? 0)%nat
          then json
                 (ErrorJson "No places found"
                    (Some ("No results for " +:+ dq +:+
                           default "" (query (fields o)) +:+ dq +:+
                           (if truthyStr (q_location (fields o))
                            then " in " +:+ default "" (q_location (fields o))
                            else ""))))
                 404
          else searchResponse places)).
Proof.
  intros Hquery Hsearch. unfold searchPlacesHandler.
  rewrite run_tryCatch, Hquery. simpl negb. cbv iota.
  rewrite run_bind, Hsearch.
  destruct (length places =? 0)%nat; simpl; by rewrite app_nil_r.
Qed.

Lemma processedPlaces_nil (places : list RawPlace) :
  processedPlaces places = [] → places = [].
Proof. by destruct places. Qed.

Lemma searchResponse_divides (returned : list RawPlace) (r : SearchResult)
    (code : Z) :
  returned ≠ [] →
  searchResponse returned = json (SearchJson r) code →
  places r ≠ [] ∧ is_Some (center_lat r) ∧ is_Some (center_lng r).
Proof.
  intros Hne. unfold searchResponse, json. intros [= <- <-]. simpl.
  destruct returned as [|first rest]; [done|]. simpl. eauto.
Qed.

(** C4: when the search comes back with no record, the handler of
    [/search-places] answers 404 with a message that names the query, and
    the location when one was given; and whatever the request and the
    provider, a response that carries a centre was computed from at least
    one record, so its two divisions had a divisor that is not zero. *)
Theorem zero_results_404_before_normalisation
    (Number_toString : float → string) (typeErrorMessage : string)
    (config : Config) (upstream : Outbound → Fetched)
    (o : JsonObject) (q : string) (calls : list Outbound) :
  query (fields o) = Some q →
  q ≠ "" →
  run upstream
    (searchPlaces Number_toString typeErrorMessage config q
       (q_location (fields o)) (withDefault 2000%float (radius (fields o)))
       (type (fields o)))
  = (calls, inr []) →
  run upstream
    (searchPlacesHandler Number_toString typeErrorMessage config (JsonBody o))
  = (calls,
     inr (json
            (ErrorJson "No places found"
               (Some ("No results for " +:+ dq +:+ q +:+ dq +:+
                      match q_location (fields o) with
                      | Some (String a rest) => " in " +:+ String a rest
                      | _ => ""
                      end)))
            404))
  ∧ ∀ (body : Body) (calls' : list Outbound) (r : SearchResult) (code : Z),
      run upstream
        (searchPlacesHandler Number_toString typeErrorMessage config body)
      = (calls', inr (json (SearchJson r) code)) →
      places r ≠ [] ∧ is_Some (center_lat r) ∧ is_Some (center_lng r).
Proof.
  intros Hq Hne Hsearch. split.
  - rewrite (searchPlacesHandler_run _ _ _ upstream o calls []).
    + simpl. rewrite Hq. simpl.
      by destruct (q_location (fields o)) as [[|a rest]|].
    + rewrite Hq. by destruct q.
    + by rewrite Hq.
  - clear. intros body calls' r code. unfold searchPlacesHandler.
    rewrite run_tryCatch.
    destruct body as [m| |o]; simpl; [by intros [=]|by intros [=]|].
    destruct (truthyStr (query (fields o))); simpl; [|by intros [=]].
    rewrite run_bind.
    destruct (run upstream (searchPlaces _ _ _ _ _ _ _)) as [cs [e|returned]];
      simpl; [by intros [=]|].
    destruct returned as [|first rest]; simpl; [by intros [=]|].
    intros Hrun.
    assert (Hr : searchResponse (first :: rest) = json (SearchJson r) code)
      by congruence.
    by eapply (searchResponse_divides (first :: rest)).
Qed.

(** ** The centre of a search *)

Lemma fold_left_sumFrom (f : LatLng → float) (ps : list PlaceRecord)
    (acc : float) :
  fold_left (fun sum place => (sum + f (place_location place))%float) ps acc
  = sumFrom acc (map (fun place => f (place_location place)) ps).
Proof.
  revert acc. induction ps as [|p ps IH]; intros acc; [reflexivity|].
  cbn [fold_left map sumFrom]. apply IH.
Qed.

(** The centre of [searchResponse] is the mean over the records of
    [processedPlaces], the first ten: the same additions in the same
    order, and the same division. *)
Lemma center_mean (f : LatLng → float) (returned : list RawPlace) :
  jsDiv (total f (processedPlaces returned))
    (length (processedPlaces returned))
  = mean (map (fun place => f (coordinates place)) (take 10 returned)).
Proof.
  unfold processedPlaces, total. rewrite fold_left_sumFrom, map_map.
  rewrite length_map.
  rewrite <- (length_map (fun place => f (coordinates place)) (take 10 returned)).
  change (fun x => f (place_location (processPlace x)))
    with (fun place => f (coordinates place)).
  by destruct (map _ (take 10 returned)).
Qed.

(** C2, as the code has it: the centre of a successful search is the
    arithmetic mean of the coordinates of the records of [places], the
    first ten of those returned at most, a record without location
    counting as (0, 0): the binary64 sum of their coordinates, added to 0
    in their order, divided by their number.  It is the mean over all the
    returned records when the provider returned ten or fewer. *)
Theorem center_is_mean_of_first_ten
    (Number_toString : float → string) (typeErrorMessage : string)
    (config : Config) (upstream : Outbound → Fetched)
    (o : JsonObject) (q : string) (calls : list Outbound)
    (returned : list RawPlace) :
  query (fields o) = Some q →
  q ≠ "" →
  run upstream
    (searchPlaces Number_toString typeErrorMessage config q
       (q_location (fields o)) (withDefault 2000%float (radius (fields o)))
       (type (fields o)))
  = (calls, inr returned) →
  returned ≠ [] →
  ∃ r : SearchResult,
    run upstream
      (searchPlacesHandler Number_toString typeErrorMessage config (JsonBody o))
    = (calls, inr (json (SearchJson r) 200)) ∧
    places r = processedPlaces returned ∧
    total_results r = length returned ∧
    center_lat r
    = mean (map (fun place => lat (coordinates place)) (take 10 returned)) ∧
    center_lng r
    = mean (map (fun place => lng (coordinates place)) (take 10 returned)) ∧
    ((length returned ≤ 10)%nat →
       center_lat r
       = mean (map (fun place => lat (coordinates place)) returned) ∧
       center_lng r
       = mean (map (fun place => lng (coordinates place)) returned)).
Proof.
  intros Hq Hne Hsearch Hreturned.
  eexists. split.
  { rewrite (searchPlacesHandler_run _ _ _ upstream o calls returned).
    - destruct returned; [done|]. reflexivity.
    - rewrite Hq. by destruct q.
    - by rewrite Hq. }
  cbn [places total_results center_lat center_lng].
  split; [reflexivity|]. split; [reflexivity|].
  split; [apply center_mean|]. split; [apply center_mean|].
  intros Hlen.
  pose proof (center_mean lat returned) as Hlat.
  pose proof (center_mean lng returned) as Hlng.
  rewrite take_ge in Hlat, Hlng by lia. by split.
Qed.

(** C2 as stated fails: with eleven records returned, ten at (0, 0) and
    the last at (11, 11), the response reports all eleven in
    [total_results] and the centre (0, 0), while the mean over the eleven
    is (1, 1). *)
Lemma center_ignores_the_eleventh_record :
  ∃ r : SearchResult,
    (run (answering elevenPlaces)
       (searchPlacesHandler sampleToString "TypeError" sampleConfig
          (searchBody "cafe"))).2
    = inr (json (SearchJson r) 200) ∧
    total_results r = 11%nat ∧
    center_lat r = Some 0%float ∧
    center_lng r = Some 0%float ∧
    mean (map (fun place => lat (coordinates place)) elevenPlaces)
    = Some 1%float ∧
    mean (map (fun place => lng (coordinates place)) elevenPlaces)
    = Some 1%float ∧
    ¬ sameNumber (center_lat r)
        (mean (map (fun place => lat (coordinates place)) elevenPlaces)) ∧
    ¬ sameNumber (center_lng r)
        (mean (map (fun place => lng (coordinates place)) elevenPlaces)).
Proof.
  eexists. split; [vm_compute; reflexivity|].
  repeat split; try (vm_compute; reflexivity);
    intros Hsame; vm_compute in Hsame; discriminate.
Qed.

(** ** Authentication, rate limit, handler *)

Lemma bearerAuth_passes (config : Config) (hdrs : Headers) :
  bearerAuth (apiSecret config) hdrs = None ↔ authorized config hdrs.
Proof.
  unfold bearerAuth, authorized. split.
  - destruct (hdrs !! "authorization") as [header|]; [|done].
    destruct (apiSecret config) as [secret|]; [|done].
    destruct (String.eqb header _) eqn:Heq; [|done].
    apply String.eqb_eq in Heq. subst header. eauto.
  - intros (secret & -> & ->). by rewrite String.eqb_refl.
Qed.

Lemma bearerAuth_denies (config : Config) (hdrs : Headers) :
  ¬ authorized config hdrs →
  bearerAuth (apiSecret config) hdrs = Some (json UnauthorizedBody 401).
Proof.
  intros Hno. destruct (bearerAuth (apiSecret config) hdrs) as [r|] eqn:Hauth.
  - revert Hauth. unfold bearerAuth.
    destruct (hdrs !! "authorization"); [|congruence].
    destruct (apiSecret config); [|congruence].
    destruct (String.eqb _ _); congruence.
  - by apply bearerAuth_passes in Hauth.
Qed.

(** C5: on both protected routes a request without the configured bearer
    token is answered 401 whatever its body, without any outbound call
    and with the rate-limit store untouched; a request with the token that
    the limiter denies is answered 429 whatever its body; only a request
    that passes both reaches the handler, on the store the limiter
    updated. *)
Theorem auth_then_rate_limit_then_handler
    (Number_toString : float → string) (typeErrorMessage : string)
    (config : Config) (encodeURIComponent : string → string + string)
    (e : Endpoint) (store : RateLimitStore) (now : Z)
    (hdrs : Headers) (body : Body) :
  let request := {| path := Protected e; headers := hdrs; req_body := body |} in
  (¬ authorized config hdrs →
     appFetch Number_toString typeErrorMessage config encodeURIComponent
       store now request
     = Ret (store, json UnauthorizedBody 401)) ∧
  (authorized config hdrs → allow store hdrs now = false →
     appFetch Number_toString typeErrorMessage config encodeURIComponent
       store now request
     = Ret (store, rateLimitExceeded)) ∧
  (authorized config hdrs → allow store hdrs now = true →
     appFetch Number_toString typeErrorMessage config encodeURIComponent
       store now request
     = let* response :=
         handlerOf Number_toString typeErrorMessage config encodeURIComponent
           e body in
       Ret (<[clientIP hdrs :=
                List.filter (fun time => now - time <? windowMs)
                  (ledger store (clientIP hdrs)) ++ [now]]> store,
            response)).
Proof.
  intros request. unfold appFetch, protectedRoute, allow. simpl.
  repeat split.
  - intros Hno. by rewrite bearerAuth_denies.
  - intros Hauth%bearerAuth_passes. rewrite Hauth.
    unfold customRateLimiter.
    by destruct (maxRequests <=? _)%nat.
  - intros Hauth%bearerAuth_passes. rewrite Hauth.
    unfold customRateLimiter. fold (ledger store (clientIP hdrs)).
    by destruct (maxRequests <=? _)%nat.
Qed.

(** ** The function-call adapter *)

(** A request that carries the token and that the limiter lets through
    reaches the handler of its route, on the store the limiter updated. *)
Lemma protectedRoute_passes
    (Number_toString : float → string) (typeErrorMessage : string)
    (config : Config) (encodeURIComponent : string → string + string)
    (e : Endpoint) (store : RateLimitStore) (now : Z)
    (hdrs : Headers) (body : Body) :
  authorized config hdrs →
  allow store hdrs now = true →
  protectedRoute Number_toString typeErrorMessage config encodeURIComponent
    e store now hdrs body
  = let* response :=
      handlerOf Number_toString typeErrorMessage config encodeURIComponent
        e body in
    Ret (<[clientIP hdrs :=
             List.filter (fun time => now - time <? windowMs)
               (ledger store (clientIP hdrs)) ++ [now]]> store,
         response).
Proof.
  intros Hauth%bearerAuth_passes. unfold protectedRoute, allow.
  rewrite Hauth. unfold customRateLimiter.
  fold (ledger store (clientIP hdrs)).
  by destruct (maxRequests <=? _)%nat.
Qed.

(** What [server.js] does with an envelope: [search_places] is answered
    with what [app.fetch] answers to a request for [/search-places] that
    has the headers of the original request, its [Authorization] header
    among them, and [parameters] as body ([{}] when the field is absent,
    [null] when it is [null]); likewise [get_directions] and
    [/directions]; any other function name is answered 400 "Unknown
    function name".  With the token and within the limit, the handler of
    the named route runs on [parameters]. *)
Lemma llm_function_dispatch
    (Number_toString : float → string) (typeErrorMessage : string)
    (config : Config) (encodeURIComponent : string → string + string)
    (store : RateLimitStore) (now : Z)
    (request : Request) (o : JsonObject) :
  path request = LlmFunction →
  req_body request = JsonBody o →
  let inner := bodyOf (nullish (withDefault noParameters (parameters o))) in
  let fetch :=
    appFetch Number_toString typeErrorMessage config encodeURIComponent
      store now in
  let store' :=
    <[clientIP (headers request) :=
        List.filter (fun time => now - time <? windowMs)
          (ledger store (clientIP (headers request))) ++ [now]]> store in
  (function_name o = Some "search_places" →
     fetch request
     = fetch {| path := Protected SearchPlaces; headers := headers request;
                req_body := inner |} ∧
     (authorized config (headers request) →
      allow store (headers request) now = true →
        fetch request
        = let* response :=
            searchPlacesHandler Number_toString typeErrorMessage config inner in
          Ret (store', response))) ∧
  (function_name o = Some "get_directions" →
     fetch request
     = fetch {| path := Protected Directions; headers := headers request;
                req_body := inner |} ∧
     (authorized config (headers request) →
      allow store (headers request) now = true →
        fetch request
        = let* response :=
            directionsHandler Number_toString typeErrorMessage config
              encodeURIComponent inner in
          Ret (store', response))) ∧
  (function_name o ≠ Some "search_places" →
   function_name o ≠ Some "get_directions" →
     fetch request
     = Ret (store, json (ErrorJson "Unknown function name" None) 400)).
Proof.
  intros Hpath Hbody inner fetch store'.
  assert (Hroute : ∀ e,
    fetch {| path := Protected e; headers := headers request;
             req_body := inner |}
    = protectedRoute Number_toString typeErrorMessage config
        encodeURIComponent e store now (headers request) inner)
    by reflexivity.
  assert (Hfetch : fetch request
    = llmFunctionHandler Number_toString typeErrorMessage config
        encodeURIComponent store now request).
  { subst fetch. unfold appFetch. by rewrite Hpath. }
  rewrite !Hroute, Hfetch. clear Hroute Hfetch fetch.
  unfold llmFunctionHandler. rewrite Hbody.
  unfold internalRequest. cbn [headers req_body]. fold inner.
  split; [|split].
  - intros Hname. rewrite bool_decide_eq_true_2 by done.
    split; [reflexivity|]. intros Hauth Hallow.
    by rewrite protectedRoute_passes.
  - intros Hname. rewrite bool_decide_eq_false_2 by (rewrite Hname; done).
    rewrite bool_decide_eq_true_2 by done.
    split; [reflexivity|]. intros Hauth Hallow.
    by rewrite protectedRoute_passes.
  - intros Hs Hd. by rewrite !bool_decide_eq_false_2.
Qed.

(** The adapter does not bypass authentication: an envelope that names a
    known function, sent without the configured token, is answered 401. *)
Lemma llm_function_keeps_auth
    (Number_toString : float → string) (typeErrorMessage : string)
    (config : Config) (encodeURIComponent : string → string + string)
    (store : RateLimitStore) (now : Z)
    (request : Request) (o : JsonObject) :
  path request = LlmFunction →
  req_body request = JsonBody o →
  function_name o = Some "search_places" ∨
  function_name o = Some "get_directions" →
  ¬ authorized config (headers request) →
  appFetch Number_toString typeErrorMessage config encodeURIComponent
    store now request
  = Ret (store, json UnauthorizedBody 401).
Proof.
  intros Hpath Hbody Hname Hno.
  unfold appFetch. rewrite Hpath. unfold llmFunctionHandler. rewrite Hbody.
  destruct Hname as [Hname|Hname]; rewrite Hname; simpl;
    unfold protectedRoute; by rewrite bearerAuth_denies.
Qed.

(** C7 fails in the second copy of [server.js]: for an envelope that names
    [search_places] or [get_directions] its handler never reaches
    [app.fetch].  Whatever the headers, the parameters and the provider,
    it makes no call, runs no handler and answers 500 "Function call
    failed" with the message of the [TypeError] of [c.req.header()].
    [server.js] does for the same request what the claim says: without
    the token it answers 401, and with the token and within the limit it
    runs the handler of the named route on [parameters]. *)
Theorem previous_llm_function_never_dispatches
    (Number_toString : float → string) (typeErrorMessage : string)
    (config : Config) (encodeURIComponent : string → string + string)
    (upstream : Outbound → Fetched)
    (store : RateLimitStore) (now : Z)
    (request : Request) (o : JsonObject) :
  path request = LlmFunction →
  req_body request = JsonBody o →
  function_name o = Some "search_places" ∨
  function_name o = Some "get_directions" →
  let inner := bodyOf (nullish (withDefault noParameters (parameters o))) in
  run upstream (previousLlmFunctionHandler typeErrorMessage store request)
  = ([], inr (store,
              json (ErrorJson "Function call failed" (Some typeErrorMessage))
                500)) ∧
  (¬ authorized config (headers request) →
     appFetch Number_toString typeErrorMessage config encodeURIComponent
       store now request
     = Ret (store, json UnauthorizedBody 401)) ∧
  (authorized config (headers request) →
   allow store (headers request) now = true →
     appFetch Number_toString typeErrorMessage config encodeURIComponent
       store now request
     = let* response :=
         if bool_decide (function_name o = Some "search_places")
         then searchPlacesHandler Number_toString typeErrorMessage config inner
         else directionsHandler Number_toString typeErrorMessage config
                encodeURIComponent inner in
       Ret (<[clientIP (headers request) :=
                List.filter (fun time => now - time <? windowMs)
                  (ledger store (clientIP (headers request))) ++ [now]]> store,
            response)).
Proof.
  intros Hpath Hbody Hname inner. split; [|split].
  - unfold previousLlmFunctionHandler. rewrite Hbody.
    destruct Hname as [Hname|Hname]; rewrite Hname; reflexivity.
  - intros Hno. by eapply llm_function_keeps_auth.
  - intros Hauth Hallow.
    destruct (llm_function_dispatch Number_toString typeErrorMessage config
                encodeURIComponent store now request o Hpath Hbody)
      as (Hsearch & Hdirections & _).
    destruct Hname as [Hname|Hname].
    + rewrite bool_decide_eq_true_2 by done. by apply Hsearch.
    + rewrite bool_decide_eq_false_2 by (rewrite Hname; done).
      by apply Hdirections.
Qed.

(** ** The theorems at concrete inputs *)

Lemma sameWindow_bounded (ts : list Z) (lo hi : Z) :
  forallb (fun t => (lo <=? t) && (t <=? hi)) ts = true →
  hi - lo < windowMs →
  sameWindow ts.
Proof.
  intros Hall Hspan i j ti tj _ Hi Hj.
  rewrite forallb_forall in Hall.
  pose proof (Hall ti) as Hti. pose proof (Hall tj) as Htj.
  rewrite andb_true_iff, !Z.leb_le in Hti, Htj.
  destruct Hti; [by eapply list_elem_of_In, list_elem_of_lookup_2|].
  destruct Htj; [by eapply list_elem_of_In, list_elem_of_lookup_2|].
  lia.
Qed.



(** A check exactly one hour after the only earlier one: the earlier time
    is pruned, the ledger holds the new time alone. *)
Lemma ledger_within_trailing_window_witness :
  monotone ([(forwardedFor "10.0.0.1", 0)].*2 ++ [3600000]) ∧
  ledger (customRateLimiter (checks ∅ [(forwardedFor "10.0.0.1", 0)])
            (forwardedFor "10.0.0.1") 3600000).1
    (clientIP (forwardedFor "10.0.0.1")) = [3600000] ∧
  3600000 - windowMs ≤ 3600000 ≤ 3600000.
Proof.
  assert (Hmono : monotone ([(forwardedFor "10.0.0.1", 0)].*2 ++ [3600000])).
  { intros [|[|i]] [|[|j]] ti tj Hij; simpl; intros [= <-] [= <-]; lia. }
  assert (Hledger :
    ledger (customRateLimiter (checks ∅ [(forwardedFor "10.0.0.1", 0)])
              (forwardedFor "10.0.0.1") 3600000).1
      (clientIP (forwardedFor "10.0.0.1")) = [3600000]) by (by vm_compute).
  split; [exact Hmono|]. split; [exact Hledger|].
  destruct (ledger_within_trailing_window [(forwardedFor "10.0.0.1", 0)]
              (forwardedFor "10.0.0.1") 3600000) as [_ Hclosed].
  apply (Hclosed Hmono). rewrite Hledger. by apply list_elem_of_singleton.
Defined.


Lemma zero_rating_and_price_become_null_witness :
  ∃ p, processedPlaces [placeAt 1 2] !! 0%nat = Some p ∧
       rating p = None ∧ price_level p = None.
Proof.
  destruct (zero_rating_and_price_become_null [placeAt 1 2] 0 (placeAt 1 2)
              0%Q eq_refl) as (p & Hp & Hrating & Hprice);
    [lia | reflexivity |].
  exists p. split; [exact Hp|]. split; [by apply Hrating | by apply Hprice].
Defined.

Lemma geocode_passes_coordinates_through_witness :
  test latLngPattern "40.7128,-74.0060" = true ∧
  geocode sampleToString "TypeError" "key" "40.7128,-74.0060"
  = Ret "40.7128,-74.0060".
Proof.
  split; [reflexivity|].
  destruct (geocode_passes_coordinates_through sampleToString "TypeError"
              sampleConfig "key" "40.7128,-74.0060") as [Hpass _].
  apply Hpass. reflexivity.
Defined.

Lemma zero_results_404_before_normalisation_witness :
  run (answering [])
    (searchPlacesHandler sampleToString "TypeError" sampleConfig
       (searchBody "cafe"))
  = ([{| endpoint := "place/textsearch/json";
         params := [("key", "key"); ("query", "cafe")] |}],
     inr (json
            (ErrorJson "No places found"
               (Some ("No results for " +:+ dq +:+ "cafe" +:+ dq)))
            404)).
Proof.
  destruct (zero_results_404_before_normalisation sampleToString "TypeError"
              sampleConfig (answering [])
              (objectOf {| query := Some "cafe"; q_location := None;
                           radius := Undefined; type := None; origin := None;
                           destination := None; mode := Undefined |})
              "cafe"
              [{| endpoint := "place/textsearch/json";
                  params := [("key", "key"); ("query", "cafe")] |}])
    as [Hanswer _]; [reflexivity | discriminate | reflexivity |].
  exact Hanswer.
Defined.

(** Two records at latitudes 0.1 and 0.2: the centre is the binary64
    number [(0 + 0.1 + 0.2) / 2], which is not the one nearest to 0.15. *)
Lemma center_is_mean_of_first_ten_witness :
  ∃ r : SearchResult,
    (run (answering [placeAt (1 / 10) 1; placeAt (2 / 10) 3])
       (searchPlacesHandler sampleToString "TypeError" sampleConfig
          (searchBody "cafe"))).2
    = inr (json (SearchJson r) 200) ∧
    center_lat r = Some ((0 + 1 / 10 + 2 / 10) / 2)%float ∧
    ¬ sameNumber (center_lat r) (Some (15 / 100)%float) ∧
    center_lng r = Some 2%float.
Proof.
  destruct (center_is_mean_of_first_ten sampleToString "TypeError"
              sampleConfig (answering [placeAt (1 / 10) 1; placeAt (2 / 10) 3])
              (objectOf {| query := Some "cafe"; q_location := None;
                           radius := Undefined; type := None; origin := None;
                           destination := None; mode := Undefined |})
              "cafe"
              [{| endpoint := "place/textsearch/json";
                  params := [("key", "key"); ("query", "cafe")] |}]
              [placeAt (1 / 10) 1; placeAt (2 / 10) 3])
    as (r & Hrun & _ & _ & Hlat & Hlng & _);
    [reflexivity | discriminate | reflexivity | discriminate |].
  exists r. split; [unfold searchBody; by rewrite Hrun|].
  rewrite Hlat, Hlng. split; [vm_compute; reflexivity|].
  split; [|vm_compute; reflexivity].
  intros Hsame. vm_compute in Hsame. discriminate.
Defined.

Lemma auth_then_rate_limit_then_handler_witness :
  ¬ authorized sampleConfig ∅ ∧
  appFetch sampleToString "TypeError" sampleConfig sampleEncode ∅ 0
    {| path := Protected SearchPlaces; headers := ∅;
       req_body := searchBody "cafe" |}
  = Ret (∅, json UnauthorizedBody 401) ∧
  authorized sampleConfig bearerHeaders ∧
  allow (checks ∅ hundredChecks) bearerHeaders 100 = false ∧
  appFetch sampleToString "TypeError" sampleConfig sampleEncode (checks ∅ hundredChecks) 100
    {| path := Protected Directions; headers := bearerHeaders;
       req_body := searchBody "cafe" |}
  = Ret (checks ∅ hundredChecks, rateLimitExceeded).
Proof.
  assert (Hno : ¬ authorized sampleConfig ∅).
  { intros (secret & _ & Hheader). by rewrite lookup_empty in Hheader. }
  assert (Hyes : authorized sampleConfig bearerHeaders).
  { exists "secret". by split. }
  assert (Hfull : allow (checks ∅ hundredChecks) bearerHeaders 100 = false)
    by (by vm_compute).
  split; [exact Hno|]. split.
  { destruct (auth_then_rate_limit_then_handler sampleToString "TypeError"
                sampleConfig sampleEncode SearchPlaces ∅ 0 ∅ (searchBody "cafe"))
      as [Hdenied _].
    exact (Hdenied Hno). }
  split; [exact Hyes|]. split; [exact Hfull|].
  destruct (auth_then_rate_limit_then_handler sampleToString "TypeError"
              sampleConfig sampleEncode Directions (checks ∅ hundredChecks) 100
              bearerHeaders (searchBody "cafe"))
    as (_ & Hlimited & _).
  exact (Hlimited Hyes Hfull).
Defined.

(** The envelope of a search for cafes, sent with the token: the second
    copy of [server.js] answers 500 without a call, [server.js] runs the
    search and answers 200. *)
Lemma previous_llm_function_never_dispatches_witness :
  let request :=
    {| path := LlmFunction; headers := bearerHeaders;
       req_body := envelope "search_places" (Some cafeParameters) |} in
  run (answering [placeAt 1 2])
    (previousLlmFunctionHandler "TypeError" ∅ request)
  = ([], inr (∅, json (ErrorJson "Function call failed" (Some "TypeError"))
                   500)) ∧
  ∃ (r : SearchResult) (store : RateLimitStore),
    run (answering [placeAt 1 2])
      (appFetch sampleToString "TypeError" sampleConfig sampleEncode ∅ 0
         request)
    = ([{| endpoint := "place/textsearch/json";
           params := [("key", "key"); ("query", "cafe")] |}],
       inr (store, json (SearchJson r) 200)) ∧
    ledger store "10.0.0.1" = [0].
Proof.
  intros request.
  assert (Hyes : authorized sampleConfig bearerHeaders).
  { exists "secret". by split. }
  assert (Hallow : allow ∅ bearerHeaders 0 = true) by (by vm_compute).
  destruct (previous_llm_function_never_dispatches sampleToString "TypeError"
              sampleConfig sampleEncode (answering [placeAt 1 2]) ∅ 0 request
              {| fields := noParameters;
                 function_name := Some "search_places";
                 parameters := Value cafeParameters |}
              eq_refl eq_refl (or_introl eq_refl))
    as (Hprevious & _ & Hfixed).
  split; [exact Hprevious|].
  rewrite (Hfixed Hyes Hallow).
  eexists _, _. split; [vm_compute; reflexivity|].
  by vm_compute.
Defined.

(** ** The handlers at concrete inputs *)

(** A body whose [mode] is [null]: no mode is sent to the provider, and
    the answer says [null]. *)
Example directions_with_null_mode :
  ∃ r : DirectionsResult,
    run routing
      (directionsHandler sampleToString "TypeError" sampleConfig sampleEncode
         (nullModeBody "A" "B"))
    = ([{| endpoint := "directions/json";
           params := [("key", "key"); ("origin", "A"); ("destination", "B");
                      ("departure_time", "now")] |}],
       inr (json (DirectionsJson r) 200)) ∧
    dir_mode r = None ∧
    dir_url r = "https://www.google.com/maps/dir/A/B/".
Proof. eexists. split; [vm_compute; reflexivity|]. by split. Qed.

(** A body without [mode]: "driving" is sent and reported. *)
Example directions_with_default_mode :
  ∃ r : DirectionsResult,
    run routing
      (directionsHandler sampleToString "TypeError" sampleConfig sampleEncode
         (directionsBody "A" "B"))
    = ([{| endpoint := "directions/json";
           params := [("key", "key"); ("origin", "A"); ("destination", "B");
                      ("mode", "driving"); ("departure_time", "now")] |}],
       inr (json (DirectionsJson r) 200)) ∧
    dir_mode r = Some "driving".
Proof. eexists. split; [vm_compute; reflexivity|]. done. Qed.

(** A destination that [encodeURIComponent] refuses: the route was found,
    and the answer is 500. *)
Example directions_with_malformed_destination :
  run routing
    (directionsHandler sampleToString "TypeError" sampleConfig strictEncode
       (directionsBody "A" "?"))
  = ([{| endpoint := "directions/json";
         params := [("key", "key"); ("origin", "A"); ("destination", "?");
                    ("mode", "driving"); ("departure_time", "now")] |}],
     inr (json (ErrorJson "Directions failed" (Some "URI malformed")) 500)).
Proof. vm_compute. reflexivity. Qed.

(** An envelope whose [parameters] is [null], sent with the token: the
    request is counted, the handler of the route reads [null] as its body
    and answers 500. *)
Example llm_function_with_null_parameters :
  ∃ store : RateLimitStore,
    run (answering [placeAt 1 2])
      (appFetch sampleToString "TypeError" sampleConfig sampleEncode ∅ 0
         {| path := LlmFunction; headers := bearerHeaders;
            req_body :=
              JsonBody {| fields := noParameters;
                          function_name := Some "search_places";
                          parameters := Null |} |})
    = ([], inr (store,
                json (ErrorJson "Search failed" (Some "TypeError")) 500)) ∧
    ledger store "10.0.0.1" = [0].
Proof. eexists. split; [vm_compute; reflexivity|]. by vm_compute. Qed.

(** An envelope without [parameters]: the body is [{}], and the handler
    of the route answers 400. *)
Example llm_function_without_parameters :
  ∃ store : RateLimitStore,
    run (answering [placeAt 1 2])
      (appFetch sampleToString "TypeError" sampleConfig sampleEncode ∅ 0
         {| path := LlmFunction; headers := bearerHeaders;
            req_body := envelope "search_places" None |})
    = ([], inr (store,
                json (ErrorJson "Query parameter is required" None) 400)).
Proof. eexists. vm_compute. reflexivity. Qed.

(* ================================================================== *)
(** * Further properties of the code *)

(** ** The rate limiter *)

Lemma allow_ledger store headers now :
  allow store headers now
  = negb (Nat.leb maxRequests
            (length (List.filter (fun time => now - time <? windowMs)
                       (ledger store (clientIP headers))))).
Proof.
  unfold allow, customRateLimiter. fold (ledger store (clientIP headers)).
  by destruct (maxRequests <=? _)%nat.
Qed.

Lemma checks_ledger_others store others c :
  (∀ e, e ∈ others → clientIP e.1 ≠ c) →
  ledger (checks store others) c = ledger store c.
Proof.
  induction others as [|[headers now] others IH] using rev_ind; intros Hne.
  - reflexivity.
  - rewrite checks_snoc, limiter_ledger_other.
    + apply IH. intros e He. apply Hne, elem_of_app. by left.
    + intros ->. eapply (Hne (headers, now)); [|reflexivity].
      apply elem_of_app. right. by apply list_elem_of_singleton.
Qed.

(** X1: the checks of other clients, however many and whatever the store,
    change neither the ledger of a client nor what the limiter decides for
    it. *)
Theorem limiter_clients_independent
    (store : RateLimitStore) (others : list (Headers * Z))
    (headers : Headers) (now : Z) :
  (∀ e, e ∈ others → clientIP e.1 ≠ clientIP headers) →
  ledger (checks store others) (clientIP headers)
  = ledger store (clientIP headers) ∧
  allow (checks store others) headers now = allow store headers now ∧
  (customRateLimiter (checks store others) headers now).2
  = (customRateLimiter store headers now).2.
Proof.
  intros Hne.
  pose proof (checks_ledger_others store others _ Hne) as Hledger.
  split; [exact Hledger|].
  split; [by rewrite !allow_ledger, Hledger|].
  unfold customRateLimiter.
  fold (ledger (checks store others) (clientIP headers)).
  fold (ledger store (clientIP headers)). rewrite Hledger.
  by destruct (maxRequests <=? _)%nat.
Qed.

Lemma clientIP_unknown (headers : Headers) :
  truthyStr (headers !! "x-forwarded-for") = false →
  clientIP headers = "unknown".
Proof.
  unfold clientIP. by destruct (headers !! "x-forwarded-for") as [[|a r]|].
Qed.

Lemma timesOf_all c history :
  (∀ e, e ∈ history → clientIP e.1 = c) → timesOf c history = history.*2.
Proof.
  intros Hall. unfold timesOf. f_equal. apply filter_keeps_all.
  intros e He. apply String.eqb_eq. by apply Hall.
Qed.

(** X2: the requests that come without an [x-forwarded-for] header, or
    with an empty one, share the one bucket "unknown": once a hundred of
    them, from whatever clients, were checked in one window, the next is
    denied, and before that it is allowed. *)
Theorem unknown_bucket_is_shared
    (history : list (Headers * Z)) (headers : Headers) (now : Z) :
  (∀ e, e ∈ history → truthyStr (e.1 !! "x-forwarded-for") = false) →
  truthyStr (headers !! "x-forwarded-for") = false →
  sameWindow (history.*2 ++ [now]) →
  clientIP headers = "unknown" ∧
  allow (checks ∅ history) headers now = bool_decide (length history < 100)%nat.
Proof.
  intros Hall Hnone Hw.
  pose proof (clientIP_unknown _ Hnone) as Hc. split; [exact Hc|].
  assert (Htimes : timesOf "unknown" history = history.*2).
  { apply timesOf_all. intros e He. by apply clientIP_unknown, Hall. }
  rewrite allow_ledger, Hc.
  rewrite (valid_sameWindow ∅ "unknown" history now).
  - rewrite Htimes, length_take, length_fmap. unfold maxRequests.
    case_bool_decide; [apply negb_true_iff, Nat.leb_gt | apply negb_false_iff, Nat.leb_le]; lia.
  - intros t t' Ht. unfold ledger in Ht. rewrite lookup_empty in Ht.
    by apply elem_of_nil in Ht.
  - by rewrite Htimes.
Qed.

(** X3: whatever the history of a process, no ledger grows beyond
    [maxRequests] = 100 entries. *)
Theorem ledger_never_exceeds_limit
    (history : list (Headers * Z)) (c : string) :
  (length (ledger (checks ∅ history) c) ≤ 100)%nat.
Proof. apply checks_length_bound. Qed.

(** X4: a client all of whose recorded requests are an hour old or older,
    exactly an hour included, is allowed again, and its ledger is
    replaced by the time of the new request alone. *)
Theorem limiter_forgets_after_window
    (store : RateLimitStore) (headers : Headers) (now : Z) :
  (∀ t, t ∈ ledger store (clientIP headers) → windowMs ≤ now - t) →
  customRateLimiter store headers now
  = (<[clientIP headers := [now]]> store, None).
Proof.
  intros Hold. unfold customRateLimiter.
  fold (ledger store (clientIP headers)).
  rewrite filter_drops_all; [reflexivity|].
  intros t Ht. apply Z.ltb_ge. by apply Hold.
Qed.

Lemma monotone_init ts now : monotone (ts ++ [now]) → monotone ts.
Proof.
  intros H i j ti tj Hij Hi Hj.
  apply (H i j); [done| |]; by apply lookup_app_l_Some.
Qed.

Lemma StronglySorted_filter_le (p : Z → bool) (l : list Z) :
  StronglySorted Z.le l → StronglySorted Z.le (List.filter p l).
Proof.
  induction 1 as [|a l Hl IH Ha]; simpl; [constructor|].
  destruct (p a); [|exact IH]. constructor; [exact IH|].
  apply Forall_forall. intros x Hx%list_elem_of_In%List.filter_In.
  rewrite Forall_forall in Ha. apply Ha, list_elem_of_In, Hx.
Qed.

Lemma StronglySorted_snoc_le (l : list Z) (x : Z) :
  StronglySorted Z.le l → (∀ t, t ∈ l → t ≤ x) →
  StronglySorted Z.le (l ++ [x]).
Proof.
  induction 1 as [|a l Hl IH Ha]; intros Hx; simpl.
  - repeat constructor.
  - constructor.
    + apply IH. intros t Ht. apply Hx. by constructor.
    + apply Forall_app. split; [exact Ha|].
      repeat constructor. apply Hx. constructor.
Qed.

(** X5: with a clock that never goes back, every ledger of a process is
    in the order of the requests: its times never decrease. *)
Theorem ledger_is_ordered (history : list (Headers * Z)) (c : string) :
  monotone history.*2 →
  StronglySorted Z.le (ledger (checks ∅ history) c).
Proof.
  revert c. induction history as [|[headers now] history IH] using rev_ind;
    intros c Hmono.
  - simpl. unfold ledger. rewrite lookup_empty. constructor.
  - rewrite fmap_app in Hmono. simpl in Hmono.
    rewrite checks_snoc.
    destruct (decide (c = clientIP headers)) as [->|Hne].
    + unfold customRateLimiter.
      fold (ledger (checks ∅ history) (clientIP headers)).
      destruct (maxRequests <=? _)%nat; simpl.
      * apply IH. by eapply monotone_init.
      * unfold ledger at 1. rewrite lookup_insert_eq. simpl.
        apply StronglySorted_snoc_le.
        -- apply StronglySorted_filter_le, IH. by eapply monotone_init.
        -- intros t Ht%list_elem_of_In%List.filter_In.
           destruct Ht as [Ht _]. apply list_elem_of_In in Ht.
           eapply monotone_last; [exact Hmono|]. by eapply checks_stamps.
    + rewrite limiter_ledger_other by done. apply IH.
      by eapply monotone_init.
Qed.

(** ** The upstream helpers and the handlers of server.js *)

Section Upstream.

Variable Number_toString : float → string.
Variable typeErrorMessage : string.
Variable config : Config.
Variable upstream : Outbound → Fetched.

Local Abbreviation call := (callGoogleMapsAPI Number_toString config).
Local Abbreviation geocodeLocation' :=
  (geocodeLocation Number_toString typeErrorMessage config).
Local Abbreviation searchPlaces' :=
  (searchPlaces Number_toString typeErrorMessage config).
Local Abbreviation apiKey := (default "undefined" (googleMapsApiKey config)).

Lemma run_call endpoint ps :
  ∃ out,
    run upstream (call endpoint ps)
    = ([{| endpoint := endpoint;
           params := ("key", apiKey) :: omap (fun kv => pair kv.1 <$> kv.2) ps |}],
       out).
Proof.
  unfold callGoogleMapsAPI. simpl.
  destruct (run upstream _) as [calls out] eqn:Hrun.
  destruct (upstream _) as [m|ok code text [m|data]]; simpl in Hrun.
  - injection Hrun as <- <-. eauto.
  - destruct ok; simpl in Hrun; injection Hrun as <- <-; eauto.
  - destruct ok; simpl in Hrun; [|injection Hrun as <- <-; eauto].
    destruct (negb _ && negb _); simpl in Hrun; injection Hrun as <- <-; eauto.
Qed.

(** X6: [callGoogleMapsAPI] makes exactly one outbound call, with [key]
    first and then the parameters that have a value, those without one
    left out; it returns the reply's data exactly when the reply is [ok],
    parses, and has status OK or ZERO_RESULTS, and throws otherwise. *)
Theorem callGoogleMapsAPI_checks_the_reply
    (path : string) (ps : list (string * option string)) :
  ∃ request out,
    run upstream (call path ps) = ([request], out) ∧
    endpoint request = path ∧
    head (params request) = Some ("key", apiKey) ∧
    (∀ k v, (k, v) ∈ tail (params request) ↔ (k, Some v) ∈ ps) ∧
    (∀ data,
       out = inr data ↔
       ∃ code text,
         upstream request = HttpReply true code text (inr data) ∧
         (api_status data = "OK" ∨ api_status data = "ZERO_RESULTS")).
Proof.
  eexists {| endpoint := path; params := _ |}.
  unfold callGoogleMapsAPI. simpl.
  destruct (run upstream _) as [calls out] eqn:Hrun.
  exists out.
  assert (Hparams : ∀ k v,
    (k, v) ∈ omap (fun kv : string * option string => pair kv.1 <$> kv.2) ps
    ↔ (k, Some v) ∈ ps).
  { intros k v. rewrite list_elem_of_omap. split.
    - intros ([k' [v'|]] & Hin & Heq); simpl in Heq; [|done].
      by injection Heq as -> ->.
    - intros Hin. exists (k, Some v). by split. }
  assert (Hshape : calls = [] ∧
    ∀ data,
      out = inr data ↔
      ∃ code text,
        upstream {| endpoint := path;
                    params := ("key", apiKey)
                      :: omap (fun kv : string * option string =>
                                 pair kv.1 <$> kv.2) ps |}
        = HttpReply true code text (inr data) ∧
        (api_status data = "OK" ∨ api_status data = "ZERO_RESULTS")).
  { destruct (upstream _) as [m|ok code text [m|data]] eqn:Hreply;
      simpl in Hrun.
    - injection Hrun as <- <-. split; [done|]. intros data. split; [done|].
      by intros (? & ? & ? & _).
    - assert (calls = [] ∧ ∃ e, out = inl e) as [-> [e ->]].
      { destruct ok; simpl in Hrun; injection Hrun as <- <-; eauto. }
      split; [done|]. intros data. split; [done|].
      by intros (? & ? & ? & _).
    - destruct ok; simpl in Hrun.
      + destruct (String.eqb (api_status data) "OK") eqn:Hok;
          [|destruct (String.eqb (api_status data) "ZERO_RESULTS") eqn:Hzero];
          simpl in Hrun; injection Hrun as <- <-; (split; [done|]);
          intros data'; split.
        * intros [= <-]. apply String.eqb_eq in Hok. eauto.
        * by intros (? & ? & [= <- <- <-] & _).
        * intros [= <-]. apply String.eqb_eq in Hzero. eauto.
        * by intros (? & ? & [= <- <- <-] & _).
        * done.
        * intros (? & ? & [= <- <- <-] & [H|H]);
            apply String.eqb_eq in H; congruence.
      + injection Hrun as <- <-. split; [done|]. intros data'. split; [done|].
        by intros (? & ? & ? & _). }
  destruct Hshape as [-> Hout].
  split; [reflexivity|]. split; [reflexivity|]. split; [reflexivity|].
  split; [exact Hparams | exact Hout].
Qed.

(** X7: [geocodeLocation] never throws: whatever the provider does, it
    makes one call to [geocode/json] and returns; it returns coordinates
    exactly when the reply passed the checks of [callGoogleMapsAPI] (it is
    [ok], it parses, its status is OK or ZERO_RESULTS) and they are the
    [geometry.location] of its first result, and [null] otherwise. *)
Theorem geocodeLocation_never_throws (address : string) :
  ∃ request bias,
    run upstream (geocodeLocation' address) = ([request], inr bias) ∧
    request = {| endpoint := "geocode/json";
                 params := [("key", apiKey); ("address", address)] |} ∧
    (∀ l, bias = Some l ↔
       ∃ code text data first rest geometry,
         upstream request = HttpReply true code text (inr data) ∧
         (api_status data = "OK" ∨ api_status data = "ZERO_RESULTS") ∧
         results data = Some (first :: rest) ∧
         raw_geometry first = Some geometry ∧
         location geometry = Some l).
Proof.
  eexists {| endpoint := "geocode/json"; params := _ |}.
  unfold geocodeLocation. rewrite run_tryCatch, run_bind.
  unfold callGoogleMapsAPI. simpl.
  destruct (upstream _) as [m|ok code text [m|data]] eqn:Hreply.
  - exists None. split; [done|]. split; [done|]. intros l. split; [done|].
    intros (? & ? & ? & ? & ? & ? & Hr & _).
    by pose proof (eq_trans (eq_sym Hreply) Hr).
  - exists None. split; [by destruct ok|]. split; [done|].
    intros l. split; [done|].
    intros (? & ? & ? & ? & ? & ? & Hr & _).
    by pose proof (eq_trans (eq_sym Hreply) Hr).
  - destruct ok; simpl;
      [|exists None; split; [done|]; split; [done|];
        intros l; split; [done|];
        intros (? & ? & ? & ? & ? & ? & Hr & _);
        by pose proof (eq_trans (eq_sym Hreply) Hr)].
    destruct (negb (String.eqb (api_status data) "OK") &&
              negb (String.eqb (api_status data) "ZERO_RESULTS")) eqn:Hstatus;
      simpl.
    { exists None. split; [done|]. split; [done|]. intros l. split; [done|].
      intros (? & ? & data' & ? & ? & ? & Hr & Hs & _).
      pose proof (eq_trans (eq_sym Hreply) Hr) as [= _ _ <-].
      destruct Hs as [Hs|Hs]; rewrite Hs in Hstatus; done. }
    assert (Hpassed :
      api_status data = "OK" ∨ api_status data = "ZERO_RESULTS").
    { apply andb_false_iff in Hstatus as [H|H];
        apply negb_false_iff, String.eqb_eq in H; auto. }
    destruct (results data) as [[|first rest]|] eqn:Hresults; simpl;
      try (exists None; split; [done|]; split; [done|];
           intros l; split; [done|];
           intros (? & ? & data' & ? & ? & ? & Hr & _ & Hres & _);
           pose proof (eq_trans (eq_sym Hreply) Hr) as [= _ _ <-];
           congruence).
    destruct (raw_geometry first) as [geometry|] eqn:Hgeometry; simpl.
    + exists (location geometry). split; [done|]. split; [done|].
      intros l. split.
      * intros Hl. exists code, text, data, first, rest, geometry.
        by repeat split.
      * intros (? & ? & data' & ? & ? & ? & Hr & _ & Hres & Hg & Hl).
        pose proof (eq_trans (eq_sym Hreply) Hr) as [= _ _ <-].
        congruence.
    + exists None. split; [done|]. split; [done|]. intros l. split; [done|].
      intros (? & ? & data' & ? & ? & ? & Hr & _ & Hres & Hg & _).
      pose proof (eq_trans (eq_sym Hreply) Hr) as [= _ _ <-].
      congruence.
Qed.

Lemma calls_bind {A B} (m : Prog A) (f : A → Prog B) calls a :
  run upstream m = (calls, inr a) →
  (run upstream (bind m f)).1 = calls ++ (run upstream (f a)).1.
Proof.
  intros Hm. rewrite run_bind, Hm. by destruct (run upstream (f a)).
Qed.

Lemma calls_call_then_ret {B} path ps (f : ApiData → B) :
  (run upstream (let* data := call path ps in Ret (f data))).1
  = [{| endpoint := path;
        params := ("key", apiKey) :: omap (fun kv => pair kv.1 <$> kv.2) ps |}].
Proof.
  rewrite run_bind. destruct (run_call path ps) as [out ->].
  destruct out; simpl; by rewrite ?app_nil_r.
Qed.

(** X8: without a location [searchPlaces] makes one call, a text search
    that carries the query alone; with a location it geocodes first, and
    when that gives nothing it still makes the plain text search, so the
    location, the radius and the type are all dropped; only with
    coordinates does it make the nearby search, with the radius (2000
    when [undefined], none when [null]) and with the type when there is
    one. *)
Theorem searchPlaces_falls_back_to_text_search
    (query : string) (place : option string) (radius : Nullable float)
    (placeType : option string) :
  let textRequest :=
    {| endpoint := "place/textsearch/json";
       params := [("key", apiKey); ("query", query)] |} in
  let nearbyRequest (bias : LatLng) :=
    {| endpoint := "place/nearbysearch/json";
       params :=
         [("key", apiKey);
          ("location",
           Number_toString (lat bias) +:+ "," +:+ Number_toString (lng bias))]
         ++ match radius with
            | Undefined => [("radius", Number_toString 2000)]
            | Null => []
            | Value r => [("radius", Number_toString r)]
            end
         ++ [("keyword", query)]
         ++ match placeType with
            | Some (String a rest) => [("type", String a rest)]
            | _ => []
            end |} in
  (truthyStr place = false →
     (run upstream (searchPlaces' query place radius placeType)).1
     = [textRequest]) ∧
  (∀ address calls bias,
     place = Some address → address ≠ "" →
     run upstream (geocodeLocation' address) = (calls, inr bias) →
     (run upstream (searchPlaces' query place radius placeType)).1
     = calls ++ [match bias with
                 | None => textRequest
                 | Some b => nearbyRequest b
                 end]).
Proof.
  intros textRequest nearbyRequest. split.
  - intros Hnone. unfold searchPlaces. rewrite Hnone.
    change (bind (Ret None) ?f) with (f None). cbv beta iota.
    apply (calls_call_then_ret "place/textsearch/json" [("query", Some query)]).
  - intros address calls bias -> Hne Hgeo. unfold searchPlaces.
    assert (truthyStr (Some address) = true) as -> by (by destruct address).
    simpl default. rewrite (calls_bind _ _ calls bias Hgeo). f_equal.
    destruct bias as [b|]; cbv beta iota.
    + rewrite calls_call_then_ret. unfold nearbyRequest.
      by destruct radius, placeType as [[|? ?]|].
    + apply (calls_call_then_ret "place/textsearch/json" [("query", Some query)]).
Qed.

End Upstream.

Section Handlers.

Variable Number_toString : float → string.
Variable typeErrorMessage : string.
Variable config : Config.
Variable encodeURIComponent : string → string + string.
Variable upstream : Outbound → Fetched.

Local Abbreviation searchOf o :=
  (searchPlaces Number_toString typeErrorMessage config
     (default "" (query (fields o))) (q_location (fields o))
     (withDefault 2000%float (radius (fields o))) (type (fields o))).

Local Abbreviation routesOf o :=
  (getDirections Number_toString config
     (default "" (origin (fields o))) (default "" (destination (fields o)))
     (withDefault "driving" (mode (fields o)))).

(** X9: how the handler of [/search-places] maps what happens to a
    status.  A body that does not parse or that is [null] gives 500 and a
    missing or empty query gives 400, both without any outbound call; otherwise the calls
    are those of [searchPlaces], whose error gives 500 "Search failed"
    with the message of the error, whose empty list gives 404 and whose
    non-empty list gives 200.  The handler itself never throws. *)
Theorem searchPlacesHandler_status_mapping (body : Body) :
  ∃ calls response,
    run upstream
      (searchPlacesHandler Number_toString typeErrorMessage config body)
    = (calls, inr response) ∧
    match body with
    | BadBody m =>
        calls = [] ∧ response = json (ErrorJson "Search failed" (Some m)) 500
    | NullBody =>
        calls = [] ∧
        response = json (ErrorJson "Search failed" (Some typeErrorMessage)) 500
    | JsonBody o =>
        if truthyStr (query (fields o))
        then
          calls = (run upstream (searchOf o)).1 ∧
          match (run upstream (searchOf o)).2 with
          | inl e => response = json (ErrorJson "Search failed" (Some e)) 500
          | inr [] => status response = 404
          | inr (_ :: _) => status response = 200
          end
        else
          calls = [] ∧
          response = json (ErrorJson "Query parameter is required" None) 400
    end.
Proof.
  unfold searchPlacesHandler. rewrite run_tryCatch.
  destruct body as [m| |o]; simpl; [eauto|eauto|].
  destruct (truthyStr (query (fields o))); simpl; [|eauto].
  rewrite run_bind.
  destruct (run upstream (searchOf o)) as [calls [e|[|first rest]]]; simpl;
    rewrite ?app_nil_r; eauto.
Qed.

(** X10: how the handler of [/directions] maps what happens to an
    answer.  A body that does not parse or that is [null] gives 500 and a
    missing or empty origin or destination gives 400, both without any
    outbound call; otherwise one call is made, to [directions/json], with
    the departure time "now" and with the mode: "driving" when the body
    has none, none at all when the body says [null].  An error of that
    call gives 500 "Directions failed" and no route gives 404 with both
    places in the message.  With a route, an origin or a destination that
    [encodeURIComponent] refuses gives 500 with the message of its error,
    a first route without legs gives 500, and else the answer is 200: it
    carries the link made of the two encoded places, reports the first
    leg of the first route alone, and gives the mode that was sent,
    [null] for none. *)
Theorem directionsHandler_status_mapping (body : Body) :
  ∃ calls response,
    run upstream
      (directionsHandler Number_toString typeErrorMessage config
         encodeURIComponent body)
    = (calls, inr response) ∧
    match body with
    | BadBody m =>
        calls = [] ∧
        response = json (ErrorJson "Directions failed" (Some m)) 500
    | NullBody =>
        calls = [] ∧
        response =
          json (ErrorJson "Directions failed" (Some typeErrorMessage)) 500
    | JsonBody o =>
        let b := fields o in
        let sent :=
          match mode b with
          | Undefined => Some "driving"
          | Null => None
          | Value m => Some m
          end in
        if truthyStr (origin b) && truthyStr (destination b)
        then
          calls =
            [{| endpoint := "directions/json";
                params :=
                  [("key", default "undefined" (googleMapsApiKey config));
                   ("origin", default "" (origin b));
                   ("destination", default "" (destination b))]
                  ++ match sent with
                     | Some m => [("mode", m)]
                     | None => []
                     end
                  ++ [("departure_time", "now")] |}] ∧
          match (run upstream (routesOf o)).2 with
          | inl e =>
              response = json (ErrorJson "Directions failed" (Some e)) 500
          | inr [] =>
              response =
                json
                  (ErrorJson "No directions found"
                     (Some ("No route found from " +:+ dq +:+
                            default "" (origin b) +:+ dq +:+ " to " +:+ dq +:+
                            default "" (destination b) +:+ dq)))
                  404
          | inr (route :: _) =>
              match encodeURIComponent (default "" (origin b)),
                    encodeURIComponent (default "" (destination b)),
                    legs route with
              | inl e, _, _ | inr _, inl e, _ =>
                  response =
                    json (ErrorJson "Directions failed" (Some e)) 500
              | inr _, inr _, [] =>
                  response =
                    json (ErrorJson "Directions failed" (Some typeErrorMessage))
                      500
              | inr encodedOrigin, inr encodedDestination, leg :: _ =>
                  response =
                    json
                      (DirectionsJson
                         {| directions := route;
                            dir_url :=
                              "https://www.google.com/maps/dir/" +:+
                              encodedOrigin +:+ "/" +:+
                              encodedDestination +:+ "/";
                            dir_duration := text (duration leg);
                            dir_distance := text (distance leg);
                            dir_start_address := start_address leg;
                            dir_end_address := end_address leg;
                            dir_mode := sent |})
                      200
              end
          end
        else
          calls = [] ∧
          response =
            json (ErrorJson "Origin and destination are required" None) 400
    end.
Proof.
  unfold directionsHandler. rewrite run_tryCatch.
  destruct body as [m| |o]; [simpl; eauto|simpl; eauto|]. cbv zeta.
  destruct (truthyStr (origin (fields o))); cbn [negb orb andb];
    [|simpl; eauto].
  destruct (truthyStr (destination (fields o))); cbn [negb orb andb];
    [|simpl; eauto].
  rewrite run_bind.
  assert (Hcalls : (run upstream (routesOf o)).1
    = [{| endpoint := "directions/json";
          params :=
            [("key", default "undefined" (googleMapsApiKey config));
             ("origin", default "" (origin (fields o)));
             ("destination", default "" (destination (fields o)))]
            ++ match match mode (fields o) with
                     | Undefined => Some "driving"
                     | Null => None
                     | Value m => Some m
                     end with
               | Some m => [("mode", m)]
               | None => []
               end
            ++ [("departure_time", "now")] |}]).
  { unfold getDirections.
    rewrite (calls_call_then_ret Number_toString config upstream
               "directions/json"
               [("origin", Some (default "" (origin (fields o))));
                ("destination", Some (default "" (destination (fields o))));
                ("mode",
                 nullish (withDefault "driving"
                            (withDefault "driving" (mode (fields o)))));
                ("departure_time", Some "now")]
               (fun data => default [] (routes data))).
    by destruct (mode (fields o)). }
  destruct (run upstream (routesOf o)) as [calls [e|[|route rest]]];
    cbn [fst snd] in *; subst calls.
  - simpl. eauto.
  - simpl. eauto.
  - cbv beta iota zeta. rewrite !run_bind. unfold encoded.
    destruct (encodeURIComponent (default "" (origin (fields o))))
      as [e|encodedOrigin]; [simpl; eauto|].
    destruct (encodeURIComponent (default "" (destination (fields o))))
      as [e|encodedDestination]; [simpl; eauto|].
    destruct (legs route) as [|leg legs']; [simpl; eauto|].
    simpl. eexists _, _. split; [reflexivity|]. split; [reflexivity|].
    by destruct (mode (fields o)).
Qed.

(** X11: a request that passes the token check and the limiter is counted
    against its client even when the handler then rejects it: a search
    without a query is answered 400 and its time is in the ledger. *)
Theorem rejected_request_consumes_quota
    (store : RateLimitStore) (now : Z) (hdrs : Headers) (o : JsonObject) :
  authorized config hdrs →
  allow store hdrs now = true →
  truthyStr (query (fields o)) = false →
  ∃ store',
    appFetch Number_toString typeErrorMessage config encodeURIComponent store now
      {| path := Protected SearchPlaces; headers := hdrs;
         req_body := JsonBody o |}
    = Ret (store', json (ErrorJson "Query parameter is required" None) 400) ∧
    now ∈ ledger store' (clientIP hdrs) ∧
    length (ledger store' (clientIP hdrs))
    = S (length (List.filter (fun time => now - time <? windowMs)
                   (ledger store (clientIP hdrs)))).
Proof.
  intros Hauth%bearerAuth_passes Hallow Hquery.
  unfold appFetch, protectedRoute. cbn [path headers req_body].
  rewrite Hauth.
  rewrite allow_ledger in Hallow. apply negb_true_iff in Hallow.
  unfold customRateLimiter. fold (ledger store (clientIP hdrs)).
  rewrite Hallow. cbn [handlerOf]. unfold searchPlacesHandler.
  rewrite Hquery. simpl.
  eexists. split; [reflexivity|].
  unfold ledger at 1 3. rewrite lookup_insert_eq. simpl. split.
  - apply elem_of_app. right. by apply list_elem_of_singleton.
  - rewrite length_app. simpl. lia.
Qed.

(** X12: what [/llm-function] does not dispatch it answers on its own,
    before any token or limit is looked at: whatever the headers, a body
    that does not parse or that is [null] gives 500 "Function call
    failed" and an envelope
    without a known function name gives 400, with the store as it was. *)
Theorem llm_function_answers_before_auth
    (store : RateLimitStore) (now : Z) (hdrs : Headers) (body : Body) :
  match body with
  | BadBody _ | NullBody => True
  | JsonBody o =>
      function_name o ≠ Some "search_places" ∧
      function_name o ≠ Some "get_directions"
  end →
  appFetch Number_toString typeErrorMessage config encodeURIComponent store now
    {| path := LlmFunction; headers := hdrs; req_body := body |}
  = Ret (store,
         match body with
         | BadBody m => json (ErrorJson "Function call failed" (Some m)) 500
         | NullBody =>
             json (ErrorJson "Function call failed" (Some typeErrorMessage))
               500
         | JsonBody _ => json (ErrorJson "Unknown function name" None) 400
         end).
Proof.
  unfold appFetch, llmFunctionHandler. simpl.
  destruct body as [m| |o]; [done|done|]. intros [Hs Hd].
  by rewrite !bool_decide_eq_false_2.
Qed.

End Handlers.

(** ** The answer of a search *)

(** X13: once ten records were returned, what comes after them changes
    nothing in the answer but [total_results]: the places and the centre
    are those of the first ten. *)
Theorem answer_depends_on_first_ten (returned extra : list RawPlace) :
  (10 ≤ length returned)%nat →
  ∃ r r' : SearchResult,
    searchResponse returned = json (SearchJson r) 200 ∧
    searchResponse (returned ++ extra) = json (SearchJson r') 200 ∧
    places r' = places r ∧
    center_lat r' = center_lat r ∧
    center_lng r' = center_lng r ∧
    total_results r' = (total_results r + length extra)%nat.
Proof.
  intros Hlen. unfold searchResponse.
  assert (Hsame : processedPlaces (returned ++ extra) = processedPlaces returned).
  { unfold processedPlaces. by rewrite take_app_le. }
  rewrite Hsame. do 2 eexists. split; [reflexivity|]. split; [reflexivity|].
  simpl. rewrite length_app. done.
Qed.

(** ** The generated links *)

Lemma append_assoc (a b c : string) : (a +:+ b) +:+ c = a +:+ b +:+ c.
Proof.
  induction a as [|x a IH].
  - reflexivity.
  - change (String x (a +:+ b) +:+ c = String x (a +:+ b +:+ c)).
    change (String x ((a +:+ b) +:+ c) = String x (a +:+ b +:+ c)).
    by rewrite IH.
Qed.

(** X15: [generateEmbedHtml] gives the empty string for no place and
    else a list with one entry for each of the first five places, in
    their order, each with the id and the name of its place; the
    [directions_url] of the answer is the one of the first entry. *)
Theorem place_embeds_are_the_first_five
    (Number_toString : float → string) (encodeURIComponent : string → string)
    (config : Config) (processed : list PlaceRecord) :
  generateEmbedHtml encodeURIComponent config [] = inl "" ∧
  (processed ≠ [] →
   ∃ embeds first rest,
     generateEmbedHtml encodeURIComponent config processed = inr embeds ∧
     embeds = first :: rest ∧
     length embeds = (length processed `min` 5)%nat ∧
     directions_url
       (searchLinks Number_toString encodeURIComponent config processed)
     = embed_directions_url first ∧
     ∀ (i : nat) (place : PlaceRecord),
       processed !! i = Some place → (i < 5)%nat →
       ∃ e, embeds !! i = Some e ∧
            embed_place_id e = place_id place ∧
            embed_name e = name place).
Proof.
  split; [reflexivity|]. intros Hne.
  destruct processed as [|p ps]; [done|].
  exists (map (embedOf encodeURIComponent config) (take 5 (p :: ps))).
  do 2 eexists. split; [reflexivity|]. split; [reflexivity|].
  split; [rewrite length_map, length_take; lia|].
  split; [reflexivity|].
  intros i place Hplace Hi.
  exists (embedOf encodeURIComponent config place). split; [|done].
  rewrite list_lookup_fmap, lookup_take_lt by done. by rewrite Hplace.
Qed.

(** X16: the HTML of every entry of [place_embeds] carries the API key of
    the gateway, in the [src] of its frame. *)
Theorem embed_html_carries_the_api_key
    (encodeURIComponent : string → string) (config : Config)
    (place : PlaceRecord) :
  ∃ before after : string,
    embed_html (embedOf encodeURIComponent config place)
    = before +:+
      ("src=" +:+ dq +:+ "https://www.google.com/maps/embed/v1/place?key=" +:+
       default "undefined" (googleMapsApiKey config)) +:+
      after.
Proof.
  exists ("<div style=" +:+ dq +:+ "margin-bottom:16px;" +:+ dq +:+ ">" +:+ nl +:+
          "        <iframe" +:+ nl +:+
          "          width=" +:+ dq +:+ "100%" +:+ dq +:+ nl +:+
          "          height=" +:+ dq +:+ "300" +:+ dq +:+ nl +:+
          "          frameborder=" +:+ dq +:+ "0" +:+ dq +:+ nl +:+
          "          style=" +:+ dq +:+ "border:0;border-radius:8px;" +:+ dq +:+ nl +:+
          "          ").
  exists ("&q=place_id:" +:+ place_id place +:+ "&zoom=15" +:+ dq +:+ nl +:+
          "          allowfullscreen" +:+ nl +:+
          "          loading=" +:+ dq +:+ "lazy" +:+ dq +:+ ">" +:+ nl +:+
          "        </iframe>" +:+ nl +:+
          "      </div>").
  unfold embedOf, embedUrlOf. cbn [embed_html].
  rewrite !append_assoc. reflexivity.
Qed.

(** ** The server of index.js *)

Lemma allRet_bind {A B} (P : B → Prop) (m : Prog A) (f : A → Prog B) :
  (∀ a, allRet P (f a)) → allRet P (bind m f).
Proof. intros Hf. induction m as [a|e|r k IH]; simpl; auto. Qed.

Lemma allRet_tryCatch {A} (P : A → Prop) (m : Prog A) (h : string → Prog A) :
  allRet P m → (∀ e, allRet P (h e)) → allRet P (tryCatch m h).
Proof. intros Hm Hh. induction m as [a|e|r k IH]; simpl in *; auto. Qed.

Lemma allRet_run {A} (P : A → Prop) (upstream : Outbound → Fetched)
    (m : Prog A) calls a :
  allRet P m → run upstream m = (calls, inr a) → P a.
Proof.
  revert calls. induction m as [b|e|r k IH]; simpl; intros calls Hm Hrun.
  - by injection Hrun as _ <-.
  - discriminate.
  - destruct (run upstream (k (upstream r))) as [cs out] eqn:Hk.
    injection Hrun as _ ->. by eapply IH.
Qed.

Lemma run_caught {A} (upstream : Outbound → Fetched) (m : Prog A)
    (h : string → Prog A) :
  (∀ e, ∃ a, h e = Ret a) →
  ∃ calls a, run upstream (tryCatch m h) = (calls, inr a).
Proof.
  intros Hh. rewrite run_tryCatch.
  destruct (run upstream m) as [calls [e|a]]; [|eauto].
  destruct (Hh e) as [a ->]. simpl. eauto.
Qed.

Section IndexProperties.

Variable Number_toString : float → string.
Variable typeErrorMessage : string.
Variable API_KEY : string.
Variable openapiFile : string + string.
Variable upstream : Outbound → Fetched.

Local Abbreviation serve :=
  (indexServe Number_toString typeErrorMessage API_KEY openapiFile).
Local Abbreviation withCORS' := (withCORS typeErrorMessage).
Local Abbreviation geocode' := (geocode Number_toString typeErrorMessage API_KEY).
Local Abbreviation formatPlace' :=
  (formatPlace Number_toString typeErrorMessage API_KEY).
Local Abbreviation internalServerError :=
  {| ix_status := 500; ix_headers := corsHeaders;
     ix_body := TextBody "Internal Server Error" |}.

Lemma withCORS_allowed body init :
  allRet (fun response => corsHeaders ⊆ ix_headers response)
    (withCORS' body init).
Proof.
  destruct init as [i|]; simpl; [|done]. apply map_union_subseteq_l.
Qed.

Lemma withCORS_status body code :
  withCORS' body (statusOnly code)
  = Ret {| ix_status := code; ix_headers := corsHeaders; ix_body := body |}.
Proof.
  unfold withCORS, statusOnly. simpl. by rewrite (right_id_L ∅ (∪)).
Qed.

(** X17: whatever the request and whatever the provider does, the server
    of index.js answers, and its answer carries the three CORS headers
    with their fixed values: every path to a response goes through
    [withCORS], the [error] handler included. *)
Theorem index_always_answers_with_cors (req : IndexRequest) :
  ∃ calls response,
    run upstream (serve req) = (calls, inr response) ∧
    ix_headers response !! "Access-Control-Allow-Origin" = Some "*" ∧
    ix_headers response !! "Access-Control-Allow-Methods"
    = Some "GET, POST, OPTIONS" ∧
    ix_headers response !! "Access-Control-Allow-Headers"
    = Some "Content-Type, Authorization".
Proof.
  destruct (run_caught upstream
              (indexFetch Number_toString typeErrorMessage API_KEY
                 openapiFile req)
              (fun _ => withCORS' (TextBody "Internal Server Error")
                          (statusOnly 500)))
    as (calls & response & Hrun).
  { intros e. rewrite withCORS_status. eauto. }
  exists calls, response. split; [exact Hrun|].
  assert (Hcors : corsHeaders ⊆ ix_headers response).
  { eapply (allRet_run (fun response => corsHeaders ⊆ ix_headers response)
              upstream _ calls response); [|exact Hrun].
    apply allRet_tryCatch; [|intros e; apply withCORS_allowed].
    unfold indexFetch.
    destruct (String.eqb (method req) "OPTIONS"); [apply withCORS_allowed|].
    destruct (String.eqb (pathname req) "/health"); [apply withCORS_allowed|].
    destruct (String.eqb (pathname req) "/openapi.json").
    { destruct openapiFile; [done | apply withCORS_allowed]. }
    destruct (_ && _).
    { unfold indexSearch.
      destruct (negb _); [apply withCORS_allowed|].
      apply allRet_bind. intros located. cbn [allRet].
      intros [m|ok code text [m|data]]; try done.
      destruct (negb _ && negb _); [apply withCORS_allowed|].
      destruct (results data); [|done].
      apply allRet_bind. intros formatted. apply withCORS_allowed. }
    destruct (_ && _); [|apply withCORS_allowed].
    unfold indexDetails.
    destruct (negb _); [apply withCORS_allowed|]. cbn [allRet].
    intros [m|ok code text [m|data]]; try done.
    destruct (negb _); apply withCORS_allowed. }
  repeat split; eapply lookup_weaken; try exact Hcors; reflexivity.
Qed.

(** X18: an OPTIONS request is answered 204 without a body and without
    any outbound call, whatever its path and its parameters. *)
Theorem index_options_preflight (req : IndexRequest) :
  method req = "OPTIONS" →
  serve req
  = Ret {| ix_status := 204; ix_headers := corsHeaders; ix_body := NoBody |}.
Proof.
  intros Hmethod. unfold indexServe, indexFetch. rewrite Hmethod.
  cbn [String.eqb Ascii.eqb Bool.eqb andb]. by rewrite withCORS_status.
Qed.

(** X19: the health check of index.js does not answer "OK": [/health]
    calls [withCORS] without an [init], the read of [init.headers]
    throws, and the [error] handler answers 500 "Internal Server
    Error". *)
Theorem index_health_answers_500 (req : IndexRequest) :
  method req ≠ "OPTIONS" →
  pathname req = "/health" →
  serve req = Ret internalServerError.
Proof.
  intros Hmethod Hpath. unfold indexServe, indexFetch.
  apply String.eqb_neq in Hmethod. rewrite Hmethod, Hpath.
  cbn [String.eqb Ascii.eqb Bool.eqb andb].
  unfold withCORS at 1. cbn [tryCatch]. by rewrite withCORS_status.
Qed.

(** X20: a request that is neither a preflight nor for one of the four
    paths, or that reaches one of the two API paths with a method other
    than GET, is answered 404 "Not Found" without any outbound call. *)
Theorem index_not_found (req : IndexRequest) :
  method req ≠ "OPTIONS" →
  pathname req ≠ "/health" →
  pathname req ≠ "/openapi.json" →
  method req ≠ "GET" ∨
  (pathname req ≠ "/api/places/search" ∧
   pathname req ≠ "/api/places/details") →
  serve req
  = Ret {| ix_status := 404; ix_headers := corsHeaders;
           ix_body := TextBody "Not Found" |}.
Proof.
  intros Hoptions Hhealth Hopenapi Hother.
  unfold indexServe, indexFetch.
  apply String.eqb_neq in Hoptions, Hhealth, Hopenapi.
  rewrite Hoptions, Hhealth, Hopenapi.
  assert (String.eqb (pathname req) "/api/places/search" &&
          String.eqb (method req) "GET" = false) as ->.
  { apply andb_false_iff. destruct Hother as [H|[H _]];
      apply String.eqb_neq in H; auto. }
  assert (String.eqb (pathname req) "/api/places/details" &&
          String.eqb (method req) "GET" = false) as ->.
  { apply andb_false_iff. destruct Hother as [H|[_ H]];
      apply String.eqb_neq in H; auto. }
  by rewrite withCORS_status.
Qed.

(** X21: the two API routes check their required parameter before
    anything else: a search without a query, or with an empty one, and a
    details request without a place id are answered 400 with the message
    of the missing parameter, without any outbound call. *)
Theorem index_missing_parameter (req : IndexRequest) :
  method req = "GET" →
  (pathname req = "/api/places/search" →
   truthyStr (getParam "query" (searchParams req)) = false →
   serve req
   = Ret {| ix_status := 400; ix_headers := corsHeaders;
            ix_body := ErrorBody "Query parameter is required" None None |}) ∧
  (pathname req = "/api/places/details" →
   truthyStr (getParam "place_id" (searchParams req)) = false →
   serve req
   = Ret {| ix_status := 400; ix_headers := corsHeaders;
            ix_body := ErrorBody "place_id parameter is required" None None |}).
Proof.
  intros Hmethod. split; intros Hpath Hmissing;
    unfold indexServe, indexFetch; rewrite Hmethod, Hpath;
    cbn [String.eqb Ascii.eqb Bool.eqb andb].
  - unfold indexSearch. rewrite Hmissing. cbn [negb].
    by rewrite withCORS_status.
  - unfold indexDetails. rewrite Hmissing. cbn [negb].
    by rewrite withCORS_status.
Qed.

End IndexProperties.

Section IndexSearch.

Variable Number_toString : float → string.
Variable typeErrorMessage : string.
Variable API_KEY : string.
Variable openapiFile : string + string.
Variable upstream : Outbound → Fetched.

Local Abbreviation serve :=
  (indexServe Number_toString typeErrorMessage API_KEY openapiFile).
Local Abbreviation search :=
  (indexSearch Number_toString typeErrorMessage API_KEY).
Local Abbreviation geocode' := (geocode Number_toString typeErrorMessage API_KEY).
Local Abbreviation formatPlace' :=
  (formatPlace Number_toString typeErrorMessage API_KEY).
Local Abbreviation internalServerError :=
  {| ix_status := 500; ix_headers := corsHeaders;
     ix_body := TextBody "Internal Server Error" |}.

Lemma serve_search (req : IndexRequest) :
  method req = "GET" →
  pathname req = "/api/places/search" →
  serve req
  = tryCatch (search (searchParams req))
      (fun _ => withCORS typeErrorMessage (TextBody "Internal Server Error")
                  (statusOnly 500)).
Proof.
  intros Hmethod Hpath. unfold indexServe, indexFetch.
  rewrite Hmethod, Hpath. reflexivity.
Qed.

Lemma run_serve_search (req : IndexRequest) :
  method req = "GET" →
  pathname req = "/api/places/search" →
  run upstream (serve req)
  = match run upstream (search (searchParams req)) with
    | (calls, inl _) => (calls, inr internalServerError)
    | (calls, inr response) => (calls, inr response)
    end.
Proof.
  intros Hmethod Hpath. rewrite serve_search, run_tryCatch by done.
  destruct (run upstream _) as [calls [e|response]]; [|done].
  rewrite withCORS_status. simpl. by rewrite app_nil_r.
Qed.

(** X22: on index.js a location that cannot be geocoded fails the whole
    search: when [geocode] throws, whatever the reason, the answer is the
    500 "Internal Server Error" of the [error] handler and the text
    search is never made. *)
Theorem index_search_fails_when_geocoding_fails
    (req : IndexRequest) (place : string) (calls : list Outbound)
    (e : string) :
  method req = "GET" →
  pathname req = "/api/places/search" →
  truthyStr (getParam "query" (searchParams req)) = true →
  getParam "location" (searchParams req) = Some place →
  place ≠ "" →
  run upstream (geocode' place) = (calls, inl e) →
  run upstream (serve req) = (calls, inr internalServerError).
Proof.
  intros Hmethod Hpath Hquery Hplace Hne Hgeo.
  rewrite run_serve_search by done.
  unfold indexSearch. rewrite Hquery, Hplace. cbn [negb].
  assert (truthyStr (Some place) = true) as -> by (by destruct place).
  cbn [default from_option id]. cbv beta iota.
  rewrite !run_bind, Hgeo. reflexivity.
Qed.

Lemma run_formatPlaces (records : list RawPlace) :
  (run upstream (mapProg formatPlace' records) = ([], inl typeErrorMessage) ∧
   ∃ p, p ∈ records ∧ raw_geometry p ≫= location = None) ∨
  (∃ formatted,
     run upstream (mapProg formatPlace' records) = ([], inr formatted) ∧
     (∀ p, p ∈ records → is_Some (raw_geometry p ≫= location)) ∧
     length formatted = length records ∧
     ∀ (i : nat) (p : RawPlace), records !! i = Some p →
       ∃ f, formatted !! i = Some f ∧
            fp_id f = raw_place_id p ∧ fp_name f = raw_name p ∧
            Some (fp_location f) = raw_geometry p ≫= location).
Proof.
  induction records as [|p records IH].
  - right. exists []. split; [reflexivity|].
    split; [by intros p Hp%elem_of_nil|]. split; [done|]. by intros i p.
  - cbn [mapProg]. rewrite run_bind. unfold formatPlace at 1 3.
    destruct (raw_geometry p ≫= location) as [l|] eqn:Hl; cbn [run].
    + rewrite !run_bind.
      destruct IH as [[Hrun (q & Hq & Hnone)]
                     |(formatted & Hrun & Hall & Hlen & Hnth)];
        rewrite Hrun; cbn [run app].
      * left. split; [reflexivity|]. exists q. split; [by constructor|done].
      * right. eexists. split; [reflexivity|]. split.
        { intros q [->|Hq]%elem_of_cons; [by rewrite Hl | by apply Hall]. }
        split; [simpl; by rewrite Hlen|].
        intros [|i] q; simpl.
        -- intros [= <-]. eexists. split; [reflexivity|]. by rewrite Hl.
        -- apply Hnth.
    + left. split; [reflexivity|]. exists p. split; [constructor|done].
Qed.

(** X23: on index.js a location that is a pair of coordinates costs no
    geocoding: the search makes one outbound call, the text search, which
    carries the coordinates as they were given and the radius, "50000"
    when the request gives none. *)
Theorem index_search_with_coordinates
    (req : IndexRequest) (q place : string) :
  method req = "GET" →
  pathname req = "/api/places/search" →
  getParam "query" (searchParams req) = Some q →
  q ≠ "" →
  getParam "location" (searchParams req) = Some place →
  test latLngPattern place = true →
  (run upstream (serve req)).1
  = [textSearch API_KEY q
       [("location", place);
        ("radius", strOr (getParam "radius" (searchParams req)) "50000")]
       (getParam "type" (searchParams req))].
Proof.
  intros Hmethod Hpath Hquery Hq Hplace Hmatch.
  rewrite run_serve_search by done.
  unfold indexSearch. rewrite Hquery, Hplace.
  assert (truthyStr (Some q) = true) as -> by (by destruct q).
  assert (truthyStr (Some place) = true) as -> by (by destruct place).
  cbn [default from_option id negb]. cbv beta iota.
  unfold geocode at 1. rewrite Hmatch, orb_true_r.
  cbn [bind run].
  destruct (upstream _) as [m|ok code text [m|data]]; cbn [run]; try done.
  destruct (negb _ && negb _); [by rewrite withCORS_status|].
  destruct (results data) as [records|]; [|done].
  rewrite run_bind.
  destruct (run_formatPlaces records) as [[-> _]|(formatted & -> & _)];
    done.
Qed.

(** X24: on index.js the answer of a search is all or nothing and is not
    capped: when the provider's reply passes the status check, one record
    without a location turns the whole answer into the 500 of the
    [error] handler, and otherwise every record of the reply is listed,
    in order, with status 200. *)
Theorem index_search_all_or_nothing
    (req : IndexRequest) (q : string) (ok : bool) (code : Z) (text : string)
    (data : ApiData) (records : list RawPlace) :
  let request := textSearch API_KEY q [] (getParam "type" (searchParams req)) in
  method req = "GET" →
  pathname req = "/api/places/search" →
  getParam "query" (searchParams req) = Some q →
  q ≠ "" →
  truthyStr (getParam "location" (searchParams req)) = false →
  upstream request = HttpReply ok code text (inr data) →
  api_status data = "OK" ∨ api_status data = "ZERO_RESULTS" →
  results data = Some records →
  ((∃ p, p ∈ records ∧ raw_geometry p ≫= location = None) →
   run upstream (serve req) = ([request], inr internalServerError)) ∧
  ((∀ p, p ∈ records → is_Some (raw_geometry p ≫= location)) →
   ∃ formatted,
     run upstream (serve req)
     = ([request],
        inr {| ix_status := 200;
               ix_headers :=
                 corsHeaders ∪ {[ "Content-Type" := "application/json" ]};
               ix_body := ResultsBody formatted (api_status data) |}) ∧
     length formatted = length records ∧
     ∀ (i : nat) (p : RawPlace), records !! i = Some p →
       ∃ f, formatted !! i = Some f ∧
            fp_id f = raw_place_id p ∧ fp_name f = raw_name p ∧
            Some (fp_location f) = raw_geometry p ≫= location).
Proof.
  intros request Hmethod Hpath Hquery Hq Hnone Hreply Hstatus Hresults.
  assert (Hrun : run upstream (search (searchParams req))
    = let '(calls, out) :=
        run upstream (let* formatted := mapProg formatPlace' records in
                      withCORS typeErrorMessage
                        (ResultsBody formatted (api_status data)) jsonContent)
      in (request :: calls, out)).
  { unfold indexSearch. rewrite Hquery, Hnone.
    assert (truthyStr (Some q) = true) as -> by (by destruct q).
    cbn [default from_option id negb bind]. cbv beta iota.
    cbn [run]. fold request. rewrite Hreply.
    assert (negb (String.eqb (api_status data) "OK") &&
            negb (String.eqb (api_status data) "ZERO_RESULTS") = false) as ->.
    { destruct Hstatus as [->| ->]; reflexivity. }
    by rewrite Hresults. }
  rewrite run_serve_search, Hrun, run_bind by done.
  destruct (run_formatPlaces records)
    as [[Hformat (p & Hp & Hbad)]|(formatted & Hformat & Hall & Hlen & Hnth)];
    rewrite Hformat; cbn [run app]; split.
  - done.
  - intros Hgood. destruct (Hgood p Hp) as [l Hl]. congruence.
  - intros (p & Hp & Hbad). destruct (Hall p Hp) as [l Hl]. congruence.
  - intros _. exists formatted. by repeat split.
Qed.

End IndexSearch.

(** ** Start-up of server.js *)

(** X25: server.js serves exactly when both secrets are set and not
    empty, and then with the environment's values and the port "3000"
    unless [PORT] is set; in every other case it exits with code 1. *)
Theorem serverStartup_serves_iff_both_secrets (env : Env) :
  (truthyStr (GOOGLE_MAPS_API_KEY env) = true ∧
   truthyStr (API_SECRET env) = true →
   serverStartup env
   = Serving {| googleMapsApiKey := GOOGLE_MAPS_API_KEY env;
                apiSecret := API_SECRET env;
                port := strOr (PORT env) "3000" |}) ∧
  (truthyStr (GOOGLE_MAPS_API_KEY env) = false ∨
   truthyStr (API_SECRET env) = false →
   serverStartup env = Exit 1) ∧
  (∀ config, serverStartup env = Serving config →
     ∃ key secret,
       googleMapsApiKey config = Some key ∧ key ≠ "" ∧
       apiSecret config = Some secret ∧ secret ≠ "").
Proof.
  split; [|split].
  - intros [Hkey Hsecret]. unfold serverStartup, configOf. simpl.
    by rewrite Hkey, Hsecret.
  - apply serverStartup_fails_fast.
  - intros config [Hkey Hsecret]%serverStartup_serves.
    destruct (googleMapsApiKey config) as [[|a key]|]; try done.
    destruct (apiSecret config) as [[|b secret]|]; try done.
    by do 2 eexists.
Qed.

(** ** The characters of a coordinate pair *)

Lemma list_ascii_of_string_app (u v : string) :
  list_ascii_of_string (u +:+ v)
  = list_ascii_of_string u ++ list_ascii_of_string v.
Proof.
  induction u as [|c u IH]; [reflexivity|].
  change (String c u +:+ v) with (String c (u +:+ v)). simpl. by rewrite IH.
Qed.

Lemma Matches_mayUse (r : Regex) (w : string) :
  Matches r w →
  ∀ c, c ∈ list_ascii_of_string w → mayUse r c = true.
Proof.
  induction 1 as [|d|d Hd|r s w _ IH|r s w _ IH|r s u v _ IHu _ IHv
                 |r|r u v _ IHu _ IHv]; intros c Hc; simpl in *.
  - by apply elem_of_nil in Hc.
  - apply list_elem_of_singleton in Hc as ->. apply Ascii.eqb_refl.
  - by apply list_elem_of_singleton in Hc as ->.
  - rewrite IH by done. reflexivity.
  - rewrite IH by done. apply orb_true_r.
  - rewrite list_ascii_of_string_app in Hc.
    apply elem_of_app in Hc as [Hc|Hc].
    + rewrite IHu by done. reflexivity.
    + rewrite IHv by done. apply orb_true_r.
  - by apply elem_of_nil in Hc.
  - rewrite list_ascii_of_string_app in Hc.
    apply elem_of_app in Hc as [Hc|Hc]; auto.
Qed.

(** X26: [geocode] of index.js takes for coordinates only strings made
    of digits, minus signs, dots and commas: a location that holds any
    other character, a space after the comma or a letter, is sent to
    [geocode/json]. *)
Theorem geocode_queries_on_any_other_character
    (Number_toString : float → string) (typeErrorMessage API_KEY : string)
    (locationText : string) (c : ascii) :
  c ∈ list_ascii_of_string locationText →
  coordinateChar c = false →
  test latLngPattern locationText = false ∧
  ∃ k,
    geocode Number_toString typeErrorMessage API_KEY locationText
    = Fetch {| endpoint := "geocode/json";
               params := [("address", locationText); ("key", API_KEY)] |}
        k.
Proof.
  intros Hc Hother.
  assert (Hno : test latLngPattern locationText = false).
  { destruct (test latLngPattern locationText) eqn:Htest; [|done].
    apply test_Matches in Htest.
    pose proof (Matches_mayUse _ _ Htest c Hc) as Huse.
    unfold coordinateChar in Hother. simpl in Huse.
    repeat (apply orb_false_iff in Hother as [Hother ?]).
    repeat (apply orb_true_iff in Huse as [Huse|Huse]); congruence. }
  split; [exact Hno|].
  unfold geocode. rewrite Hno.
  destruct locationText; [by apply elem_of_nil in Hc|]. simpl. eauto.
Qed.

(** ** The further properties at concrete inputs *)

Lemma limiter_clients_independent_witness :
  allow (checks staleStore [(forwardedFor "10.0.0.2", 5)])
    (forwardedFor "10.0.0.1") 10
  = allow staleStore (forwardedFor "10.0.0.1") 10.
Proof.
  destruct (limiter_clients_independent staleStore
              [(forwardedFor "10.0.0.2", 5)] (forwardedFor "10.0.0.1") 10)
    as (_ & Hallow & _); [|exact Hallow].
  intros e He. apply list_elem_of_singleton in He as ->. by vm_compute.
Defined.

Lemma unknown_bucket_is_shared_witness :
  clientIP (forwardedFor "") = "unknown" ∧
  allow (checks ∅ anonymousChecks) (forwardedFor "") 100 = false.
Proof.
  apply (unknown_bucket_is_shared anonymousChecks (forwardedFor "") 100).
  - intros e (k & -> & _)%list_elem_of_fmap. reflexivity.
  - reflexivity.
  - apply (sameWindow_bounded _ 0 100); by vm_compute.
Defined.

Lemma limiter_forgets_after_window_witness :
  customRateLimiter staleStore (forwardedFor "10.0.0.1") 0
  = (<[clientIP (forwardedFor "10.0.0.1") := [0]]> staleStore, None).
Proof.
  apply limiter_forgets_after_window.
  intros t Ht.
  change (ledger staleStore (clientIP (forwardedFor "10.0.0.1")))
    with [-3600000] in Ht.
  apply list_elem_of_singleton in Ht as ->. by vm_compute.
Defined.

Lemma ledger_is_ordered_witness :
  StronglySorted Z.le
    (ledger (checks ∅ [(forwardedFor "10.0.0.1", 0); (forwardedFor "10.0.0.1", 5)])
       "10.0.0.1").
Proof.
  apply ledger_is_ordered.
  intros [|[|i]] [|[|j]] ti tj Hij; simpl; intros [= <-] [= <-]; lia.
Defined.

Lemma searchPlaces_falls_back_to_text_search_witness :
  (run (answering [])
     (searchPlaces sampleToString "TypeError" sampleConfig "cafe" None
        (Value 2000%float) (Some "cafe"))).1
  = [{| endpoint := "place/textsearch/json";
        params := [("key", "key"); ("query", "cafe")] |}].
Proof.
  destruct (searchPlaces_falls_back_to_text_search sampleToString "TypeError"
              sampleConfig (answering []) "cafe" None (Value 2000%float)
              (Some "cafe"))
    as [Htext _].
  by apply Htext.
Defined.

Lemma rejected_request_consumes_quota_witness :
  ∃ store',
    appFetch sampleToString "TypeError" sampleConfig sampleEncode ∅ 7
      {| path := Protected SearchPlaces; headers := bearerHeaders;
         req_body := JsonBody (objectOf noParameters) |}
    = Ret (store', json (ErrorJson "Query parameter is required" None) 400) ∧
    7 ∈ ledger store' (clientIP bearerHeaders).
Proof.
  destruct (rejected_request_consumes_quota sampleToString "TypeError"
              sampleConfig sampleEncode ∅ 7 bearerHeaders
              (objectOf noParameters))
    as (store' & Hanswer & Hin & _).
  - exists "secret". by split.
  - by vm_compute.
  - reflexivity.
  - by exists store'.
Defined.

Lemma llm_function_answers_before_auth_witness :
  appFetch sampleToString "TypeError" sampleConfig sampleEncode staleStore 0
    {| path := LlmFunction; headers := ∅;
       req_body := JsonBody {| fields := noParameters;
                               function_name := Some "delete_everything";
                               parameters := Undefined |} |}
  = Ret (staleStore, json (ErrorJson "Unknown function name" None) 400).
Proof.
  apply (llm_function_answers_before_auth sampleToString "TypeError"
           sampleConfig sampleEncode staleStore 0 ∅
           (JsonBody {| fields := noParameters;
                        function_name := Some "delete_everything";
                        parameters := Undefined |})).
  by split.
Defined.

Lemma answer_depends_on_first_ten_witness :
  ∃ r r' : SearchResult,
    searchResponse (replicate 10 (placeAt 0 0)) = json (SearchJson r) 200 ∧
    searchResponse elevenPlaces = json (SearchJson r') 200 ∧
    places r' = places r ∧ center_lat r' = center_lat r ∧
    center_lng r' = center_lng r ∧
    total_results r' = (total_results r + 1)%nat.
Proof.
  apply (answer_depends_on_first_ten (replicate 10 (placeAt 0 0))
           [placeAt 11 11]).
  vm_compute. lia.
Defined.

Lemma place_embeds_are_the_first_five_witness :
  ∃ embeds first rest,
    generateEmbedHtml id sampleConfig (replicate 7 samplePlace) = inr embeds ∧
    embeds = first :: rest ∧
    length embeds = 5%nat.
Proof.
  destruct (place_embeds_are_the_first_five sampleToString id sampleConfig
              (replicate 7 samplePlace))
    as [_ Hembeds].
  destruct Hembeds as (embeds & first & rest & Hgen & Hshape & Hlen & _);
    [discriminate|].
  exists embeds, first, rest. by repeat split.
Defined.

Lemma index_options_preflight_witness :
  indexServe sampleToString "TypeError" "key" (inl "ENOENT")
    {| method := "OPTIONS"; pathname := "/api/places/search";
       searchParams := [] |}
  = Ret {| ix_status := 204; ix_headers := corsHeaders; ix_body := NoBody |}.
Proof. by apply index_options_preflight. Defined.

Lemma index_health_answers_500_witness :
  indexServe sampleToString "TypeError" "key" (inl "ENOENT")
    (getRequest "/health" [])
  = Ret {| ix_status := 500; ix_headers := corsHeaders;
           ix_body := TextBody "Internal Server Error" |}.
Proof. by apply index_health_answers_500. Defined.

Lemma index_not_found_witness :
  indexServe sampleToString "TypeError" "key" (inl "ENOENT")
    {| method := "POST"; pathname := "/api/places/search";
       searchParams := [("query", "pizza")] |}
  = Ret {| ix_status := 404; ix_headers := corsHeaders;
           ix_body := TextBody "Not Found" |}.
Proof. apply index_not_found; try done. by left. Defined.

Lemma index_missing_parameter_witness :
  indexServe sampleToString "TypeError" "key" (inl "ENOENT")
    (getRequest "/api/places/search" [("query", "")])
  = Ret {| ix_status := 400; ix_headers := corsHeaders;
           ix_body := ErrorBody "Query parameter is required" None None |}.
Proof.
  destruct (index_missing_parameter sampleToString "TypeError" "key"
              (inl "ENOENT") (getRequest "/api/places/search" [("query", "")])
              eq_refl) as [Hsearch _].
  by apply Hsearch.
Defined.

Lemma index_search_fails_when_geocoding_fails_witness :
  run offline
    (indexServe sampleToString "TypeError" "key" (inl "ENOENT") namedSearch)
  = ([{| endpoint := "geocode/json";
         params := [("address", "New York"); ("key", "key")] |}],
     inr {| ix_status := 500; ix_headers := corsHeaders;
            ix_body := TextBody "Internal Server Error" |}).
Proof.
  apply (index_search_fails_when_geocoding_fails sampleToString "TypeError"
           "key" (inl "ENOENT") offline namedSearch "New York" _
           "fetch failed"); done.
Defined.

Lemma index_search_with_coordinates_witness :
  (run (answering [])
     (indexServe sampleToString "TypeError" "key" (inl "ENOENT")
        coordinateSearch)).1
  = [{| endpoint := "place/textsearch/json";
        params := [("query", "restaurant"); ("key", "key");
                   ("location", "40.7128,-74.0060"); ("radius", "1000");
                   ("type", "restaurant")] |}].
Proof.
  apply (index_search_with_coordinates sampleToString "TypeError" "key"
           (inl "ENOENT") (answering []) coordinateSearch "restaurant"
           "40.7128,-74.0060"); done.
Defined.

Lemma index_search_all_or_nothing_witness :
  run (answering [placeAt 1 2; barePlace])
    (indexServe sampleToString "TypeError" "key" (inl "ENOENT")
       (getRequest "/api/places/search" [("query", "Starbucks")]))
  = ([{| endpoint := "place/textsearch/json";
         params := [("query", "Starbucks"); ("key", "key")] |}],
     inr {| ix_status := 500; ix_headers := corsHeaders;
            ix_body := TextBody "Internal Server Error" |}).
Proof.
  destruct (index_search_all_or_nothing sampleToString "TypeError" "key"
              (inl "ENOENT") (answering [placeAt 1 2; barePlace])
              (getRequest "/api/places/search" [("query", "Starbucks")])
              "Starbucks" true 200 "OK"
              {| api_status := "OK"; error_message := None;
                 results := Some [placeAt 1 2; barePlace]; routes := None |}
              [placeAt 1 2; barePlace])
    as [Hnothing _];
    [reflexivity | reflexivity | reflexivity | discriminate | reflexivity
    | reflexivity | by left | reflexivity |].
  apply Hnothing. exists barePlace. split; [|done].
  apply elem_of_cons. right. constructor.
Defined.

Lemma serverStartup_serves_iff_both_secrets_witness :
  serverStartup {| GOOGLE_MAPS_API_KEY := Some "key";
                   API_SECRET := Some "secret"; PORT := None |}
  = Serving sampleConfig ∧
  serverStartup {| GOOGLE_MAPS_API_KEY := Some "key";
                   API_SECRET := Some ""; PORT := None |}
  = Exit 1.
Proof.
  split.
  - destruct (serverStartup_serves_iff_both_secrets
                {| GOOGLE_MAPS_API_KEY := Some "key";
                   API_SECRET := Some "secret"; PORT := None |})
      as [Hserve _].
    by apply Hserve.
  - destruct (serverStartup_serves_iff_both_secrets
                {| GOOGLE_MAPS_API_KEY := Some "key";
                   API_SECRET := Some ""; PORT := None |})
      as (_ & Hexit & _).
    apply Hexit. by right.
Defined.

Lemma geocode_queries_on_any_other_character_witness :
  test latLngPattern "40.7128, -74.0060" = false ∧
  ∃ k,
    geocode sampleToString "TypeError" "key" "40.7128, -74.0060"
    = Fetch {| endpoint := "geocode/json";
               params := [("address", "40.7128, -74.0060"); ("key", "key")] |}
        k.
Proof.
  apply (geocode_queries_on_any_other_character sampleToString "TypeError"
           "key" "40.7128, -74.0060" " "%char).
  - apply list_elem_of_In. vm_compute. tauto.
  - reflexivity.
Defined.
